(** * Contact form controller of [src/App.jsx]

    A shallow embedding of the contact form of the portfolio page: the field
    validators, the change / blur / submit handlers, the two timers of the
    simulated send and the Escape handler of the toast.

    JavaScript strings are sequences of UTF-16 code units; objects used as
    records ([form], [errors]) are lists of own properties in creation order;
    the component's hook cells, the pending [setTimeout] callbacks and the
    focused control form the state that the handlers transform. *)

From Stdlib Require Import List Bool Arith NArith Lia String Ascii.
Import ListNotations.

Local Open Scope N_scope.

(** ** JavaScript strings *)

Module JsString.

(** A string is its sequence of UTF-16 code units. *)
Definition jsstring := list N.

(** A literal of the source (all of them are ASCII). *)
Definition lit (s : string) : jsstring :=
  map N_of_ascii (list_ascii_of_string s).

(** Strict equality [===] on strings. *)
Fixpoint eqb (s t : jsstring) : bool :=
  match s, t with
  | [], [] => true
  | c :: s', d :: t' => N.eqb c d && eqb s' t'
  | _, _ => false
  end.

(** [s.length] *)
Definition length (s : jsstring) : N := N.of_nat (List.length s).

(** ECMAScript WhiteSpace and LineTerminator code points: what [trim]
    strips and what the class escape [\s] matches. All lie in the BMP. *)
Definition is_white_space (c : N) : bool :=
  (c =? 9) || (c =? 10) || (c =? 11) || (c =? 12) || (c =? 13) ||
  (c =? 32) || (c =? 160) || (c =? 5760) ||
  ((8192 <=? c) && (c <=? 8202)) ||
  (c =? 8232) || (c =? 8233) || (c =? 8239) || (c =? 8287) ||
  (c =? 12288) || (c =? 65279).

(** [s.trimStart()] *)
Fixpoint trimStart (s : jsstring) : jsstring :=
  match s with
  | c :: s' => if is_white_space c then trimStart s' else s
  | [] => []
  end.

(** [s.trimEnd()] *)
Definition trimEnd (s : jsstring) : jsstring := rev (trimStart (rev s)).

(** [s.trim()] *)
Definition trim (s : jsstring) : jsstring := trimEnd (trimStart s).

(** Truthiness of a string: only the empty string is falsy. *)
Definition truthy (s : jsstring) : bool :=
  match s with [] => false | _ => true end.

End JsString.
Import JsString.

(** ** Regular expressions

    The fragment of the pattern language that [emailRegex] is written in: a
    sequence of terms, each an assertion, a one-character atom, or an atom
    under the greedy quantifier [+]. No flags: matching is by code unit, [^]
    and [$] are the ends of the input. *)

Module RegExp.

Inductive class_item :=
| ClassSpace                (* \s *)
| ClassChar (c : N).        (* a literal member *)

Inductive atom :=
| Char (c : N)                       (* a pattern character, or \c *)
| NegClass (items : list class_item). (* [^...] *)

Inductive term :=
| AssertStart                (* ^ *)
| AssertEnd                  (* $ *)
| One (a : atom)
| Plus (a : atom).           (* a+ *)

Definition regexp := list term.

Definition item_matches (i : class_item) (c : N) : bool :=
  match i with
  | ClassSpace => is_white_space c
  | ClassChar d => c =? d
  end.

Definition atom_matches (a : atom) (c : N) : bool :=
  match a with
  | Char d => c =? d
  | NegClass items => negb (existsb (fun i => item_matches i c) items)
  end.

(** The backtracking matcher at one start position: [pos] is the index of
    the first code unit of [rest] in the input. A quantified atom takes as
    many code units as it can and gives them back one at a time. *)
Fixpoint match_from (re : regexp) (pos : nat) (rest : jsstring) : bool :=
  match re with
  | [] => true
  | AssertStart :: re' => Nat.eqb pos 0 && match_from re' pos rest
  | AssertEnd :: re' =>
      match rest with
      | [] => match_from re' pos rest
      | _ :: _ => false
      end
  | One a :: re' =>
      match rest with
      | c :: r => atom_matches a c && match_from re' (S pos) r
      | [] => false
      end
  | Plus a :: re' =>
      (fix more (pos : nat) (rest : jsstring) : bool :=
         match rest with
         | c :: r =>
             atom_matches a c && (more (S pos) r || match_from re' (S pos) r)
         | [] => false
         end) pos rest
  end.

(** The search loop of [exec] for a pattern without the global or sticky
    flag: try every start index from 0 up to the length of the input. *)
Fixpoint search (re : regexp) (pos : nat) (rest : jsstring) : bool :=
  match_from re pos rest ||
  match rest with
  | [] => false
  | _ :: r => search re (S pos) r
  end.

(** [re.test(s)] *)
Definition test (re : regexp) (s : jsstring) : bool := search re 0%nat s.

End RegExp.
Import RegExp.

(** ** Objects

    An ordinary object whose properties are all own, enumerable, string
    valued data properties, as [form] and [errors] are. Properties are kept
    in creation order, which is the order [Object.keys] lists them in for
    property names that are not array indices (the names the page supplies
    are those of its three controls). JavaScript would list a new name that
    is an array index, such as 1, before the others, where [set] puts it
    last: lookups are the same, only the order of the keys differs, and the
    source reads that order from the result of [validateAll] alone, whose
    keys are the three field names. *)

Module Obj.

Definition obj := list (jsstring * jsstring).

(** [o[k]]: [None] stands for [undefined]. *)
Fixpoint get (o : obj) (k : jsstring) : option jsstring :=
  match o with
  | [] => None
  | (k', v) :: o' => if eqb k' k then Some v else get o' k
  end.

(** [o[k] = v]: an existing property keeps its place. *)
Fixpoint set (k v : jsstring) (o : obj) : obj :=
  match o with
  | [] => [(k, v)]
  | (k', v') :: o' => if eqb k' k then (k', v) :: o' else (k', v') :: set k v o'
  end.

(** [delete o[k]] *)
Fixpoint delete (k : jsstring) (o : obj) : obj :=
  match o with
  | [] => []
  | (k', v') :: o' => if eqb k' k then delete k o' else (k', v') :: delete k o'
  end.

(** [Object.keys(o)] *)
Definition keys (o : obj) : list jsstring := map fst o.

(** [{ ...o }] copies the own properties in order. *)
Definition spread (o : obj) : obj := o.

(** [{ ...a, ...b }] *)
Definition assign (a b : obj) : obj :=
  fold_left (fun acc kv => set (fst kv) (snd kv) acc) b a.

End Obj.

(** ** The validators (App.jsx, lines 22-55) *)

Definition k_name : jsstring := lit "name".
Definition k_email : jsstring := lit "email".
Definition k_message : jsstring := lit "message".

Definition name_error : jsstring :=
  lit "Please enter your name (min 2 characters).".
Definition email_error : jsstring :=
  lit "Please enter a valid email address.".
Definition message_error : jsstring :=
  lit "Message must be at least 10 characters.".

(** The class [[^\s@]]. *)
Definition not_space_at : atom := NegClass [ClassSpace; ClassChar 64].

(** [/^[^\s@]+@[^\s@]+\.[^\s@]+$/] *)
Definition emailRegex : regexp :=
  [AssertStart; Plus not_space_at; One (Char 64); Plus not_space_at;
   One (Char 46); Plus not_space_at; AssertEnd].

(** [!v] for a property read [v] of [values]: [undefined] and the empty
    string are falsy. *)
Definition falsy (v : option jsstring) : bool :=
  match v with
  | None => true
  | Some s => negb (truthy s)
  end.

(** The value under [.trim()]; only reached for a truthy (string) value. *)
Definition str (v : option jsstring) : jsstring :=
  match v with Some s => s | None => [] end.

Definition validateAll (values : Obj.obj) : Obj.obj :=
  let e : Obj.obj := [] in
  let e :=
    if falsy (Obj.get values k_name)
       || (JsString.length (trim (str (Obj.get values k_name))) <? 2)
    then Obj.set k_name name_error e else e in
  let e :=
    if falsy (Obj.get values k_email)
       || negb (test emailRegex (trim (str (Obj.get values k_email))))
    then Obj.set k_email email_error e else e in
  let e :=
    if falsy (Obj.get values k_message)
       || (JsString.length (trim (str (Obj.get values k_message))) <? 10)
    then Obj.set k_message message_error e else e in
  e.

Definition validateField (name value : jsstring) : jsstring :=
  if eqb name k_name then
    if negb (truthy value) || (JsString.length (trim value) <? 2)
    then name_error else []
  else if eqb name k_email then
    if negb (truthy value) || negb (test emailRegex (trim value))
    then email_error else []
  else if eqb name k_message then
    if negb (truthy value) || (JsString.length (trim value) <? 10)
    then message_error else []
  else [].

(** ** The component state

    The four hook cells of [App], whether the component is mounted (between
    mount and unmount the [keydown] listener of the effect is attached), the
    form control that holds the input focus as far as the handlers move it,
    and the timer queue of the page with its clock in milliseconds. *)

(** The two callbacks handed to [setTimeout] (lines 100-106 and 105). *)
Inductive callback := SendDone | HideToast.

Record timer := mkTimer { due : N; run : callback }.

Record state := mkState {
  form : Obj.obj;
  errors : Obj.obj;
  isSubmitting : bool;
  mailSent : bool;
  mounted : bool;
  focused : option jsstring;
  now : N;
  timers : list timer
}.

(** The form with its three fields empty, as [useState] and the send
    callback create it. *)
Definition emptyForm : Obj.obj := [(k_name, []); (k_email, []); (k_message, [])].

(** The state after the first render: the effect has attached its listener. *)
Definition init : state :=
  mkState emptyForm [] false false true None 0 [].

(** *** Hook setters

    A setter applies its update to the cell of a mounted component; React
    discards an update addressed to a component that has been unmounted. *)

Definition setForm (upd : Obj.obj -> Obj.obj) (st : state) : state :=
  if mounted st then
    mkState (upd (form st)) (errors st) (isSubmitting st) (mailSent st)
            (mounted st) (focused st) (now st) (timers st)
  else st.

Definition setErrors (upd : Obj.obj -> Obj.obj) (st : state) : state :=
  if mounted st then
    mkState (form st) (upd (errors st)) (isSubmitting st) (mailSent st)
            (mounted st) (focused st) (now st) (timers st)
  else st.

Definition setIsSubmitting (b : bool) (st : state) : state :=
  if mounted st then
    mkState (form st) (errors st) b (mailSent st)
            (mounted st) (focused st) (now st) (timers st)
  else st.

Definition setMailSent (b : bool) (st : state) : state :=
  if mounted st then
    mkState (form st) (errors st) (isSubmitting st) b
            (mounted st) (focused st) (now st) (timers st)
  else st.

(** *** Page services *)

(** [setTimeout(cb, delay)]: the callback becomes due [delay] ms from now. *)
Definition setTimeout (cb : callback) (delay : N) (st : state) : state :=
  mkState (form st) (errors st) (isSubmitting st) (mailSent st)
          (mounted st) (focused st) (now st)
          (timers st ++ [mkTimer (now st + delay) cb]).

(** The elements of the page that carry a [name] attribute: the two inputs
    and the textarea of the form (lines 373-416). *)
Definition controls : list jsstring := [k_name; k_email; k_message].

(** [document.querySelector(`[name="${n}"]`)] *)
Definition querySelector (n : jsstring) : option jsstring :=
  find (eqb n) controls.

(** [el.focus()] *)
Definition focus (el : jsstring) (st : state) : state :=
  mkState (form st) (errors st) (isSubmitting st) (mailSent st)
          (mounted st) (Some el) (now st) (timers st).

(** ** The handlers (lines 57-116) *)

Definition handleChange (name value : jsstring) (st : state) : state :=
  let st := setForm (fun prev => Obj.set name value (Obj.spread prev)) st in
  setErrors (fun prev =>
               let copy := Obj.spread prev in
               let err := validateField name value in
               if truthy err then Obj.set name err copy
               else Obj.delete name copy) st.

Definition handleBlur (name value : jsstring) (st : state) : state :=
  let err := validateField name value in
  let st :=
    setErrors (fun prev =>
                 Obj.assign (Obj.spread prev)
                            (if truthy err then [(name, err)] else [])) st in
  if negb (truthy err) then
    setErrors (fun prev =>
                 let copy := Obj.spread prev in
                 Obj.delete name copy) st
  else st.

(** [e.preventDefault()] only keeps the browser from navigating. *)
Definition handleSubmit (st : state) : state :=
  let found := validateAll (form st) in
  let st := setErrors (fun _ => found) st in
  if (0 <? List.length (Obj.keys found))%nat then
    match Obj.keys found with
    | firstField :: _ =>
        match querySelector firstField with
        | Some el => focus el st
        | None => st
        end
    | [] => st
    end
  else
    let st := setIsSubmitting true st in
    setTimeout SendDone 700 st.

(** The bodies of the two timer callbacks. *)
Definition run_callback (cb : callback) (st : state) : state :=
  match cb with
  | SendDone =>
      let st := setIsSubmitting false st in
      let st := setMailSent true st in
      let st := setForm (fun _ => emptyForm) st in
      setTimeout HideToast 3000 st
  | HideToast => setMailSent false st
  end.

(** The [keydown] listener of the effect. *)
Definition onKey (key : jsstring) (st : state) : state :=
  if eqb key (lit "Escape") then setMailSent false st else st.

(** Unmounting runs the cleanup of the effect, which removes the listener;
    nothing else is released. *)
Definition unmount (st : state) : state :=
  mkState (form st) (errors st) (isSubmitting st) (mailSent st)
          false (focused st) (now st) (timers st).

(** ** The timer queue *)

(** The timer that fires next: the least due time, and among equal due times
    the one scheduled first; returned with the timers that stay pending. *)
Fixpoint pop_earliest (ts : list timer) : option (timer * list timer) :=
  match ts with
  | [] => None
  | t :: ts' =>
      match pop_earliest ts' with
      | None => Some (t, [])
      | Some (u, rest) =>
          if due u <? due t then Some (u, t :: rest) else Some (t, ts')
      end
  end.

(** Fire the next timer if it is due by [deadline]. *)
Definition fire_next (deadline : N) (st : state) : option state :=
  match pop_earliest (timers st) with
  | Some (t, rest) =>
      if due t <=? deadline then
        Some (run_callback (run t)
                (mkState (form st) (errors st) (isSubmitting st) (mailSent st)
                         (mounted st) (focused st) (N.max (now st) (due t)) rest))
      else None
  | None => None
  end.

Fixpoint fire_all (fuel : nat) (deadline : N) (st : state) : state :=
  match fuel with
  | O => st
  | S fuel' =>
      match fire_next deadline st with
      | Some st' => fire_all fuel' deadline st'
      | None => st
      end
  end.

(** A bound on the callbacks still to run: the send callback schedules one
    more timer, the toast callback none. *)
Definition weight (ts : list timer) : nat :=
  fold_right (fun t n => (match run t with SendDone => 2 | HideToast => 1 end + n)%nat)
             O ts.

Definition set_now (t : N) (st : state) : state :=
  mkState (form st) (errors st) (isSubmitting st) (mailSent st)
          (mounted st) (focused st) t (timers st).

(** [d] milliseconds pass: every timer due within them fires, in order. *)
Definition elapse (d : N) (st : state) : state :=
  let deadline := now st + d in
  set_now deadline (fire_all (weight (timers st)) deadline st).

(** ** Events

    What the page delivers to the component. The controls and the form exist
    only while the component is mounted, and so does the listener; the
    submit button carries [disabled={isSubmitting}] (line 431), and a form
    whose submit button is disabled is not submitted by the user. *)

Inductive event :=
| Change (name value : jsstring)
| Blur (name value : jsstring)
| Submit
| KeyDown (key : jsstring)
| Elapse (d : N)
| Unmount.

Definition submitDisabled (st : state) : bool := isSubmitting st.

Definition dispatch (ev : event) (st : state) : state :=
  match ev with
  | Change name value => if mounted st then handleChange name value st else st
  | Blur name value => if mounted st then handleBlur name value st else st
  | Submit =>
      if mounted st && negb (submitDisabled st) then handleSubmit st else st
  | KeyDown key => if mounted st then onKey key st else st
  | Elapse d => elapse d st
  | Unmount => unmount st
  end.

Inductive reachable : state -> Prop :=
| reachable_init : reachable init
| reachable_step st ev : reachable st -> reachable (dispatch ev st).

(** ** Vocabulary of the specification *)

(** SubmissionState as the two flags show it: the button reads "Sending..."
    while [isSubmitting], the toast is up while [mailSent]. *)
Inductive SubmissionState := Idle | Sending | Succeeded.

Definition submissionState (st : state) : SubmissionState :=
  if isSubmitting st then Sending
  else if mailSent st then Succeeded
  else Idle.

(** The sends in flight: the pending send callbacks. *)
Definition is_send (t : timer) : bool :=
  match run t with SendDone => true | HideToast => false end.

Definition in_flight (st : state) : nat :=
  List.length (filter is_send (timers st)).

(** The fixed order of the fields. *)
Definition field_order : list jsstring := [k_name; k_email; k_message].

(** A field is invalid when its validator has a message for its value. *)
Definition invalid (values : Obj.obj) (f : jsstring) : bool :=
  truthy (validateField f (str (Obj.get values f))).

(** The first field, in that order, whose current value is invalid. *)
Definition first_invalid (values : Obj.obj) : option jsstring :=
  find (invalid values) field_order.

(** A code unit that [[^\s@]] accepts. *)
Definition plain (c : N) : Prop := is_white_space c = false /\ c <> 64.

(** What the email pattern says of a whole string: [local@domain.tld] with
    three non-empty parts free of white space and of [@]. *)
Definition email_shape (t : jsstring) : Prop :=
  exists a b c,
    t = a ++ 64 :: b ++ 46 :: c /\
    a <> [] /\ b <> [] /\ c <> [] /\
    Forall plain a /\ Forall plain b /\ Forall plain c.

(** The single-step recompute of one field's error: the entry is set to
    the message when there is one and removed otherwise. *)
Definition recompute (name value : jsstring) (prev : Obj.obj) : Obj.obj :=
  if truthy (validateField name value)
  then Obj.set name (validateField name value) prev
  else Obj.delete name prev.




(** At most one send is in flight, and only while [isSubmitting]. *)
Definition one_send (st : state) : Prop :=
  (in_flight st <= 1)%nat /\ (in_flight st = 1%nat -> isSubmitting st = true).

(** ** Scenarios *)

Definition run_events (evs : list event) (st : state) : state :=
  fold_left (fun s ev => dispatch ev s) evs st.

(** The visitor types three valid values. *)
Definition fill : list event :=
  [Change k_name (lit "Sam");
   Change k_email (lit "sam@example.com");
   Change k_message (lit "Hello there, how are you?")].

(** The form is filled and submitted: the send is in flight. *)
Definition sending : state := run_events (fill ++ [Submit]) init.

(** The send is done and the toast is up. *)
Definition toast_up : state := dispatch (Elapse 700) sending.

(** The form is filled again while the toast is still up. *)
Definition toast_refilled : state := run_events fill toast_up.


(** ** The rendered form (lines 371-450)

    What the render shows of the state: the three controls, the submit
    button and the toast. The three controls are written out one by one in
    the source with the same markup; [renderControl] is that markup with the
    control's name and the id of its error paragraph as parameters. *)

(** Truthiness of a property read: [undefined] and the empty string are
    falsy. *)
Definition truthy_prop (v : option jsstring) : bool := negb (falsy v).

Record control_view := mkControl {
  c_name : jsstring;
  c_value : option jsstring;
  c_ariaInvalid : jsstring;
  c_ariaDescribedby : option jsstring;
  c_className : jsstring;
  c_helper : option (jsstring * jsstring)   (* id and text of the <p> *)
}.

Definition renderControl (name errId : jsstring) (st : state) : control_view :=
  let err := Obj.get (errors st) name in
  mkControl
    name
    (Obj.get (form st) name)
    (if truthy_prop err then lit "true" else lit "false")
    (if truthy_prop err then Some errId else None)
    (lit "p-3 rounded-md w-full focus:outline-none " ++
     (if truthy_prop err then lit "border-red-500 ring-1 ring-red-200"
      else lit "border border-slate-300 focus:border-indigo-600"))
    (if truthy_prop err then Some (errId, str err) else None).

Definition renderControls (st : state) : list control_view :=
  [renderControl k_name (lit "err-name") st;
   renderControl k_email (lit "err-email") st;
   renderControl k_message (lit "err-message") st].

Record button_view := mkButton {
  b_disabled : bool;
  b_className : jsstring;
  b_label : jsstring
}.

Definition renderButton (st : state) : button_view :=
  mkButton
    (isSubmitting st)
    (lit "px-4 py-2 rounded-md text-white " ++
     (if isSubmitting st then lit "bg-indigo-300 cursor-wait"
      else lit "bg-indigo-600 hover:bg-indigo-700"))
    (if isSubmitting st then lit "Sending..." else lit "Send Message").

(** The toast: its text when it is rendered (the last code unit is the
    check mark U+2713). *)
Definition renderToast (st : state) : option jsstring :=
  if mailSent st then Some (lit "Mail Sent Successfully " ++ [10003]) else None.

(** ** Events as the page delivers them

    The controls are controlled inputs: the value a blur event carries is
    the value the control shows, which the render has set to the form's. *)

Definition delivered (st : state) (ev : event) : Prop :=
  match ev with
  | Blur name value => Obj.get (form st) name = Some value
  | _ => True
  end.

Inductive page_reachable : state -> Prop :=
| page_init : page_reachable init
| page_step st ev :
    page_reachable st -> delivered st ev -> page_reachable (dispatch ev st).

(** Every entry of [errors] is the validator's message for the value the
    form holds for that field. *)
Definition errors_current (st : state) : Prop :=
  forall k e,
    Obj.get (errors st) k = Some e ->
    In k field_order /\ e <> [] /\
    validateField k (str (Obj.get (form st) k)) = e.

(** Each of the three fields has a value. *)
Definition fields_present (st : state) : Prop :=
  forall f, In f field_order -> exists v, Obj.get (form st) f = Some v.

(** Timers are due within their delay, a mounted component that is
    submitting has its send in flight, and one that shows the toast has a
    timer pending that will take it down. *)
Definition timers_bounded (st : state) : Prop :=
  (forall t, In t (timers st) -> is_send t = true -> due t <= now st + 700) /\
  (mounted st = true -> isSubmitting st = true -> in_flight st = 1%nat) /\
  (mounted st = true -> mailSent st = true ->
     exists t, In t (timers st) /\ is_send t = false /\ due t <= now st + 3000).

(** * Properties *)

(** ** Strings and objects *)

Lemma eqb_eq (s t : jsstring) : eqb s t = true <-> s = t.
Proof.
  revert t; induction s as [|c s IH]; intros [|d t]; simpl;
    try (split; [discriminate | congruence]); try tauto.
  rewrite andb_true_iff, N.eqb_eq, IH. split.
  - intros [-> ->]; reflexivity.
  - intros E; injection E; auto.
Qed.

Lemma eqb_refl (s : jsstring) : eqb s s = true.
Proof. apply eqb_eq; reflexivity. Qed.

Lemma eqb_neq (s t : jsstring) : eqb s t = false <-> s <> t.
Proof.
  rewrite <- eqb_eq. destruct (eqb s t); split; congruence.
Qed.

Lemma truthy_false (s : jsstring) : truthy s = false <-> s = [].
Proof. destruct s; simpl; split; congruence. Qed.

Lemma truthy_true (s : jsstring) : truthy s = true <-> s <> [].
Proof. destruct s; simpl; split; congruence. Qed.

Module ObjFacts.
Import Obj.

Lemma get_set_same k v o : get (set k v o) k = Some v.
Proof.
  induction o as [|[k' v'] o IH]; simpl.
  - now rewrite eqb_refl.
  - destruct (eqb k' k) eqn:E; simpl; now rewrite E.
Qed.

Lemma get_set_other k v o k' : k' <> k -> get (set k v o) k' = get o k'.
Proof.
  intros D. induction o as [|[k0 v0] o IH]; simpl.
  - destruct (eqb k k') eqn:E; [apply eqb_eq in E; congruence | reflexivity].
  - destruct (eqb k0 k) eqn:E; simpl.
    + apply eqb_eq in E; subst k0.
      destruct (eqb k k') eqn:E'; [apply eqb_eq in E'; congruence | reflexivity].
    + now rewrite IH.
Qed.

Lemma get_delete_same k o : get (delete k o) k = None.
Proof.
  induction o as [|[k' v'] o IH]; simpl; [reflexivity|].
  destruct (eqb k' k) eqn:E; simpl; [assumption | now rewrite E].
Qed.

Lemma get_delete_other k o k' : k' <> k -> get (delete k o) k' = get o k'.
Proof.
  intros D. induction o as [|[k0 v0] o IH]; simpl; [reflexivity|].
  destruct (eqb k0 k) eqn:E; simpl.
  - apply eqb_eq in E; subst k0.
    destruct (eqb k k') eqn:E'; [apply eqb_eq in E'; congruence | assumption].
  - now rewrite IH.
Qed.

Lemma set_set k v o : set k v (set k v o) = set k v o.
Proof.
  induction o as [|[k' v'] o IH]; simpl.
  - now rewrite eqb_refl.
  - destruct (eqb k' k) eqn:E; simpl; rewrite E; [reflexivity | now rewrite IH].
Qed.

Lemma delete_delete k o : delete k (delete k o) = delete k o.
Proof.
  induction o as [|[k' v'] o IH]; simpl; [reflexivity|].
  destruct (eqb k' k) eqn:E; simpl; [assumption | now rewrite E, IH].
Qed.

Lemma assign_one o k v : assign o [(k, v)] = set k v o.
Proof. reflexivity. Qed.

Lemma assign_none o : assign o [] = o.
Proof. reflexivity. Qed.

Lemma keys_set_in k v o k' : In k' (keys (set k v o)) <-> k' = k \/ In k' (keys o).
Proof.
  induction o as [|[k0 v0] o IH]; simpl.
  - intuition congruence.
  - destruct (eqb k0 k) eqn:E; simpl.
    + apply eqb_eq in E; subst k0. intuition congruence.
    + rewrite IH. intuition congruence.
Qed.

Lemma keys_delete_in k o k' : In k' (keys (delete k o)) <-> k' <> k /\ In k' (keys o).
Proof.
  induction o as [|[k0 v0] o IH]; simpl; [tauto|].
  destruct (eqb k0 k) eqn:E; simpl.
  - apply eqb_eq in E; subst k0. rewrite IH. intuition congruence.
  - apply eqb_neq in E. rewrite IH. intuition congruence.
Qed.

End ObjFacts.
Import ObjFacts.

(** ** The email pattern *)

Module RegExpFacts.

Lemma match_plus_cons a re pos c r :
  match_from (Plus a :: re) pos (c :: r) =
  atom_matches a c && (match_from (Plus a :: re) (S pos) r || match_from re (S pos) r).
Proof. reflexivity. Qed.

Lemma match_plus_nil a re pos : match_from (Plus a :: re) pos [] = false.
Proof. reflexivity. Qed.

(** [a+] followed by [re] succeeds exactly when the input splits into a
    non-empty run of [a] and a remainder that [re] accepts. *)
Lemma match_plus a re rest : forall pos,
  match_from (Plus a :: re) pos rest = true <->
  exists x y, rest = x ++ y /\ x <> [] /\
              forallb (atom_matches a) x = true /\
              match_from re (pos + List.length x) y = true.
Proof.
  induction rest as [|c r IH]; intros pos.
  - rewrite match_plus_nil. split; [discriminate|].
    intros (x & y & E & Hx & _). destruct x; [congruence | discriminate].
  - rewrite match_plus_cons, andb_true_iff, orb_true_iff, IH. split.
    + intros [Hc [(x & y & -> & Hx & Hall & Hm) | Hm]].
      * exists (c :: x), y. simpl. rewrite Hc, Hall.
        repeat split; try congruence.
        now rewrite <- plus_n_Sm.
      * exists [c], r. simpl. rewrite Hc, Nat.add_1_r. now repeat split.
    + intros (x & y & E & Hx & Hall & Hm).
      destruct x as [|c' x]; [congruence|].
      simpl in E, Hall. injection E as <- ->.
      apply andb_true_iff in Hall as [Hc Hall]. split; [assumption|].
      simpl in Hm. rewrite <- plus_n_Sm in Hm.
      destruct x as [|d x].
      * right. simpl in Hm. now rewrite Nat.add_0_r in Hm.
      * left. exists (d :: x), y. repeat split; try congruence; exact Hm.
Qed.

Lemma match_one a re pos rest :
  match_from (One a :: re) pos rest = true <->
  exists c r, rest = c :: r /\ atom_matches a c = true /\
              match_from re (S pos) r = true.
Proof.
  destruct rest as [|c r]; simpl.
  - split; [discriminate | intros (? & ? & ? & _); discriminate].
  - rewrite andb_true_iff. split.
    + intros [? ?]. now exists c, r.
    + intros (c' & r' & E & ? & ?). injection E as <- <-. now split.
Qed.

Lemma match_end pos rest : match_from [AssertEnd] pos rest = true <-> rest = [].
Proof. destruct rest; simpl; split; congruence. Qed.

(** A pattern that begins with [^] matches at index 0 or nowhere. *)
Lemma search_start_later re rest : forall pos,
  search (AssertStart :: re) (S pos) rest = false.
Proof.
  induction rest as [|c r IH]; intros pos; simpl; [reflexivity | apply IH].
Qed.

Lemma test_start re s :
  test (AssertStart :: re) s = match_from re 0%nat s.
Proof.
  unfold test. destruct s as [|c r]; simpl.
  - now rewrite orb_false_r.
  - now rewrite search_start_later, orb_false_r.
Qed.

Lemma not_space_at_plain c : atom_matches not_space_at c = true <-> plain c.
Proof.
  unfold plain; simpl. rewrite orb_false_r, negb_true_iff, orb_false_iff, N.eqb_neq.
  reflexivity.
Qed.

Lemma forallb_plain x :
  forallb (atom_matches not_space_at) x = true <-> Forall plain x.
Proof.
  rewrite forallb_forall, Forall_forall.
  split; intros H c Hc; apply not_space_at_plain, H, Hc.
Qed.

(** The matcher run on [emailRegex] decides the shape the pattern
    describes. *)
Lemma test_emailRegex t : test emailRegex t = true <-> email_shape t.
Proof.
  unfold emailRegex, email_shape. rewrite test_start, match_plus. split.
  - intros (a & y & -> & Ha & Hpa & Hm).
    apply match_one in Hm as (c1 & y1 & -> & Hc1 & Hm).
    apply match_plus in Hm as (b & y2 & -> & Hb & Hpb & Hm).
    apply match_one in Hm as (c2 & y3 & -> & Hc2 & Hm).
    apply match_plus in Hm as (c & y4 & -> & Hc & Hpc & Hm).
    apply match_end in Hm; subst y4.
    simpl in Hc1, Hc2. apply N.eqb_eq in Hc1, Hc2. subst c1 c2.
    exists a, b, c. rewrite app_nil_r.
    repeat split; try assumption; now apply forallb_plain.
  - intros (a & b & c & -> & Ha & Hb & Hc & Hpa & Hpb & Hpc).
    exists a, (64 :: b ++ 46 :: c). repeat split; try assumption.
    { now apply forallb_plain. }
    apply match_one. exists 64, (b ++ 46 :: c). repeat split.
    apply match_plus. exists b, (46 :: c). repeat split; try assumption.
    { now apply forallb_plain. }
    apply match_one. exists 46, c. repeat split.
    apply match_plus. exists c, []. rewrite app_nil_r. repeat split; try assumption.
    now apply forallb_plain.
Qed.

End RegExpFacts.
Import RegExpFacts.

(** ** The validators *)

Lemma validateField_name s :
  validateField k_name s =
  if negb (truthy s) || (JsString.length (trim s) <? 2) then name_error else [].
Proof. reflexivity. Qed.

Lemma validateField_email s :
  validateField k_email s =
  if negb (truthy s) || negb (test emailRegex (trim s)) then email_error else [].
Proof. reflexivity. Qed.

Lemma validateField_message s :
  validateField k_message s =
  if negb (truthy s) || (JsString.length (trim s) <? 10) then message_error else [].
Proof. reflexivity. Qed.

Lemma validateField_other f v :
  f <> k_name -> f <> k_email -> f <> k_message -> validateField f v = [].
Proof.
  intros H1 H2 H3. unfold validateField.
  apply eqb_neq in H1, H2, H3. now rewrite H1, H2, H3.
Qed.

(** A check of the form [!value || bad] passes exactly when the value is
    non-empty and [bad] is false. *)
Lemma guard_passes (s : jsstring) (bad : bool) (msg : jsstring) :
  msg <> [] ->
  ((if negb (truthy s) || bad then msg else []) = [] <-> s <> [] /\ bad = false).
Proof.
  intros Hmsg. destruct s as [|c s]; simpl.
  - split; [congruence | intros [? _]; congruence].
  - destruct bad; split; try congruence; try (intros [_ ?]; congruence).
    intros _; split; congruence.
Qed.

Lemma guard_cases (s : jsstring) (bad : bool) (msg : jsstring) :
  (if negb (truthy s) || bad then msg else []) = [] \/
  (if negb (truthy s) || bad then msg else []) = msg.
Proof. destruct (negb (truthy s) || bad); auto. Qed.

(** C1. For every string [s]: [validateField("name", s)] is empty exactly
    when [s] is non-empty and its trimmed length is at least 2, and is the
    name message otherwise; [validateField("email", s)] is empty exactly when
    [s] is non-empty and [s] trimmed matches [emailRegex] (that is, has the
    shape the pattern describes), and is the email message otherwise;
    [validateField("message", s)] is empty exactly when [s] is non-empty and
    its trimmed length is at least 10, and is the message message
    otherwise. *)
Theorem validateField_rules (s : jsstring) :
  (validateField k_name s = [] <->
     s <> [] /\ 2 <= JsString.length (trim s)) /\
  (validateField k_name s = [] \/ validateField k_name s = name_error) /\
  (validateField k_email s = [] <->
     s <> [] /\ test emailRegex (trim s) = true) /\
  (test emailRegex (trim s) = true <-> email_shape (trim s)) /\
  (validateField k_email s = [] \/ validateField k_email s = email_error) /\
  (validateField k_message s = [] <->
     s <> [] /\ 10 <= JsString.length (trim s)) /\
  (validateField k_message s = [] \/ validateField k_message s = message_error).
Proof.
  rewrite validateField_name, validateField_email, validateField_message.
  assert (Hn : name_error <> []) by discriminate.
  assert (He : email_error <> []) by discriminate.
  assert (Hm : message_error <> []) by discriminate.
  split; [|split; [|split; [|split; [|split; [|split]]]]].
  - rewrite (guard_passes _ _ _ Hn), N.ltb_ge. reflexivity.
  - apply guard_cases.
  - rewrite (guard_passes _ _ _ He), negb_false_iff. reflexivity.
  - apply test_emailRegex.
  - apply guard_cases.
  - rewrite (guard_passes _ _ _ Hm), N.ltb_ge. reflexivity.
  - apply guard_cases.
Qed.

Example email_valid : validateField k_email (lit "a@b.co") = [].
Proof. reflexivity. Qed.

Example email_invalid : validateField k_email (lit "not-an-email") = email_error.
Proof. reflexivity. Qed.

Example message_valid : validateField k_message (lit "1234567890") = [].
Proof. reflexivity. Qed.

Example message_invalid : validateField k_message (lit "short") = message_error.
Proof. reflexivity. Qed.

Example name_blank : validateField k_name [32; 9; 160] = name_error.
Proof. reflexivity. Qed.

(** ** Change and blur *)

Lemma handleChange_mounted name value st :
  mounted st = true ->
  handleChange name value st =
  mkState (Obj.set name value (form st)) (recompute name value (errors st))
          (isSubmitting st) (mailSent st) true (focused st) (now st) (timers st).
Proof.
  intros M. destruct st; simpl in M; subst.
  unfold handleChange, setForm, setErrors, recompute, Obj.spread; simpl.
  reflexivity.
Qed.

Lemma handleBlur_mounted name value st :
  mounted st = true ->
  handleBlur name value st =
  mkState (form st) (recompute name value (errors st))
          (isSubmitting st) (mailSent st) true (focused st) (now st) (timers st).
Proof.
  intros M. destruct st; simpl in M; subst.
  unfold handleBlur, setErrors, recompute, Obj.spread; simpl.
  destruct (truthy (validateField name value)); simpl; reflexivity.
Qed.

Lemma handleChange_unmounted name value st :
  mounted st = false -> handleChange name value st = st.
Proof.
  intros M. unfold handleChange, setForm, setErrors. now rewrite M, M.
Qed.

Lemma handleBlur_unmounted name value st :
  mounted st = false -> handleBlur name value st = st.
Proof.
  intros M. unfold handleBlur, setErrors. rewrite M.
  destruct (negb _); [now rewrite M | reflexivity].
Qed.

Lemma recompute_same name value prev :
  Obj.get (recompute name value prev) name =
  if truthy (validateField name value) then Some (validateField name value)
  else None.
Proof.
  unfold recompute. destruct (truthy _).
  - apply get_set_same.
  - apply get_delete_same.
Qed.

Lemma recompute_other name value prev other :
  other <> name ->
  Obj.get (recompute name value prev) other = Obj.get prev other.
Proof.
  intros D. unfold recompute. destruct (truthy _).
  - now apply get_set_other.
  - now apply get_delete_other.
Qed.

Lemma recompute_twice name value prev :
  recompute name value (recompute name value prev) = recompute name value prev.
Proof.
  unfold recompute. destruct (truthy _).
  - apply set_set.
  - apply delete_delete.
Qed.

(** C5. For every field name, value and prior state, the errors left by
    [handleBlur] (its set, then its separate delete) are the errors left by
    the single update of [handleChange]: the field maps to
    [validateField(field, value)] when that is non-empty and has no entry
    otherwise, and every other field's entry is as before. *)
Theorem blur_errors_as_change (name value : jsstring) (st : state) :
  mounted st = true ->
  errors (handleBlur name value st) = errors (handleChange name value st) /\
  Obj.get (errors (handleBlur name value st)) name =
    (if truthy (validateField name value)
     then Some (validateField name value) else None) /\
  (forall other, other <> name ->
     Obj.get (errors (handleBlur name value st)) other =
     Obj.get (errors st) other).
Proof.
  intros M. rewrite (handleBlur_mounted _ _ _ M), (handleChange_mounted _ _ _ M).
  simpl. split; [reflexivity|]. split.
  - apply recompute_same.
  - intros other D. now apply recompute_other.
Qed.

Lemma blur_errors_as_change_witness :
  mounted init = true /\
  errors (handleBlur k_email (lit "x") init) =
  errors (handleChange k_email (lit "x") init).
Proof.
  split; [reflexivity|].
  apply (blur_errors_as_change k_email (lit "x") init). reflexivity.
Defined.

(** C6. For every field name, value and starting state, [handleChange] run
    twice with the same pair leaves the state (so FieldErrors and
    FormValues) that running it once leaves. *)
Theorem handleChange_idempotent (name value : jsstring) (st : state) :
  handleChange name value (handleChange name value st) =
  handleChange name value st.
Proof.
  destruct (mounted st) eqn:M.
  - rewrite (handleChange_mounted _ _ st M).
    rewrite handleChange_mounted by reflexivity. simpl.
    now rewrite set_set, recompute_twice.
  - now rewrite !(handleChange_unmounted _ _ st M).
Qed.

(** C7. For every field [f], value [v] and prior state of the mounted
    component, [handleChange] sets FormValues[f] to [v], removes the
    FieldErrors entry of [f] if [validateField(f, v)] is empty and sets it to
    that message otherwise, and leaves the FieldErrors and FormValues
    entries of every other field as they were. *)
Theorem handleChange_frame (f v : jsstring) (st : state) :
  mounted st = true ->
  Obj.get (form (handleChange f v st)) f = Some v /\
  (validateField f v = [] -> Obj.get (errors (handleChange f v st)) f = None) /\
  (validateField f v <> [] ->
     Obj.get (errors (handleChange f v st)) f = Some (validateField f v)) /\
  (forall g, g <> f ->
     Obj.get (errors (handleChange f v st)) g = Obj.get (errors st) g /\
     Obj.get (form (handleChange f v st)) g = Obj.get (form st) g).
Proof.
  intros M. rewrite (handleChange_mounted _ _ _ M). simpl.
  split; [apply get_set_same|]. split; [|split].
  - intros E. rewrite recompute_same, E. reflexivity.
  - intros E. rewrite recompute_same.
    apply truthy_true in E. now rewrite E.
  - intros g D. split.
    + now apply recompute_other.
    + now apply get_set_other.
Qed.

Lemma handleChange_frame_witness :
  Obj.get (form (handleChange k_name (lit "S") init)) k_name = Some (lit "S") /\
  Obj.get (errors (handleChange k_name (lit "S") init)) k_name = Some name_error.
Proof.
  destruct (handleChange_frame k_name (lit "S") init) as (H1 & _ & H3 & _).
  - reflexivity.
  - split; [exact H1|]. apply H3. discriminate.
Defined.

(** C10. For every field name outside name, email, message and every
    value, [validateField] returns the empty string, so [handleChange] and
    [handleBlur] called with such a name add no FieldErrors entry: every
    entry they leave was there before. *)
Theorem unknown_field_adds_no_error (f v : jsstring) (st : state) :
  ~ In f field_order ->
  validateField f v = [] /\
  (forall k e, Obj.get (errors (handleChange f v st)) k = Some e ->
               Obj.get (errors st) k = Some e) /\
  (forall k e, Obj.get (errors (handleBlur f v st)) k = Some e ->
               Obj.get (errors st) k = Some e).
Proof.
  intros Hf.
  assert (E : validateField f v = []).
  { apply validateField_other; intros ->; apply Hf; simpl; auto. }
  assert (R : forall prev k e,
             Obj.get (recompute f v prev) k = Some e -> Obj.get prev k = Some e).
  { intros prev k e. unfold recompute. rewrite E. simpl.
    destruct (eqb k f) eqn:K.
    - apply eqb_eq in K; subst k. now rewrite get_delete_same.
    - apply eqb_neq in K. now rewrite get_delete_other. }
  split; [exact E|]. destruct (mounted st) eqn:M.
  - rewrite (handleChange_mounted _ _ _ M), (handleBlur_mounted _ _ _ M).
    simpl. split; apply R.
  - rewrite (handleChange_unmounted _ _ _ M), (handleBlur_unmounted _ _ _ M).
    split; auto.
Qed.

Lemma unknown_field_adds_no_error_witness :
  ~ In (lit "phone") field_order /\
  validateField (lit "phone") (lit "12") = [].
Proof.
  assert (H : ~ In (lit "phone") field_order).
  { simpl. intros [H | [H | [H | []]]]; discriminate H. }
  split; [exact H|].
  apply (unknown_field_adds_no_error (lit "phone") (lit "12") init H).
Defined.

(** ** Submission *)

(** The check [validateAll] makes of a property read is the check
    [validateField] makes of its value. *)
Lemma falsy_str v : falsy v = negb (truthy (str v)).
Proof. destruct v; reflexivity. Qed.

Lemma validateAll_keys values :
  Obj.keys (validateAll values) = filter (invalid values) field_order.
Proof.
  unfold validateAll, invalid, field_order. rewrite !falsy_str.
  cbn [filter].
  rewrite validateField_name, validateField_email, validateField_message.
  destruct (negb (truthy (str (Obj.get values k_name))) || _);
    destruct (negb (truthy (str (Obj.get values k_email))) || _);
    destruct (negb (truthy (str (Obj.get values k_message))) || _);
    reflexivity.
Qed.

Lemma validateAll_get values f :
  In f field_order ->
  Obj.get (validateAll values) f =
  if invalid values f then Some (validateField f (str (Obj.get values f)))
  else None.
Proof.
  intros Hf. unfold validateAll, invalid. rewrite !falsy_str.
  pose proof (validateField_name (str (Obj.get values k_name))) as En.
  pose proof (validateField_email (str (Obj.get values k_email))) as Ee.
  pose proof (validateField_message (str (Obj.get values k_message))) as Em.
  destruct (negb (truthy (str (Obj.get values k_name))) || _);
    destruct (negb (truthy (str (Obj.get values k_email))) || _);
    destruct (negb (truthy (str (Obj.get values k_message))) || _);
    destruct Hf as [<- | [<- | [<- | []]]];
    first [rewrite En | rewrite Ee | rewrite Em]; reflexivity.
Qed.

Lemma find_filter {A} (p : A -> bool) (l : list A) :
  find p l = hd_error (filter p l).
Proof.
  induction l as [|x l IH]; simpl; [reflexivity|].
  destruct (p x); [reflexivity | exact IH].
Qed.

Lemma querySelector_control f : In f controls -> querySelector f = Some f.
Proof.
  intros [<- | [<- | [<- | []]]]; reflexivity.
Qed.

(** The failing branch of [handleSubmit]. *)
Lemma handleSubmit_blocked st firstField more :
  mounted st = true ->
  Obj.keys (validateAll (form st)) = firstField :: more ->
  In firstField controls ->
  handleSubmit st =
  mkState (form st) (validateAll (form st)) (isSubmitting st) (mailSent st)
          true (Some firstField) (now st) (timers st).
Proof.
  intros M K C. unfold handleSubmit, setErrors. rewrite M, K. simpl.
  rewrite (querySelector_control _ C). unfold focus; simpl. reflexivity.
Qed.

(** The passing branch of [handleSubmit]. *)
Lemma handleSubmit_sends st :
  mounted st = true ->
  validateAll (form st) = [] ->
  handleSubmit st =
  mkState (form st) [] true (mailSent st) true (focused st) (now st)
          (timers st ++ [mkTimer (now st + 700) SendDone]).
Proof.
  intros M V. destruct st as [fm er sub sent mt fo nw ts]; simpl in *; subst mt.
  unfold handleSubmit, setErrors, setIsSubmitting, setTimeout; simpl.
  rewrite V. reflexivity.
Qed.

(** C2. For every state of the mounted component whose values fail
    validation, [handleSubmit] leaves the submission state where it was
    (Idle stays Idle) and FormValues unchanged, replaces FieldErrors by
    [validateAll] of the current values (one entry per invalid field),
    starts no send, and moves the focus to the first invalid field in the
    order name, email, message. *)
Theorem blocked_submission (st : state) :
  mounted st = true ->
  validateAll (form st) <> [] ->
  errors (handleSubmit st) = validateAll (form st) /\
  (forall f, In f field_order ->
     Obj.get (errors (handleSubmit st)) f =
     if invalid (form st) f
     then Some (validateField f (str (Obj.get (form st) f))) else None) /\
  form (handleSubmit st) = form st /\
  submissionState (handleSubmit st) = submissionState st /\
  timers (handleSubmit st) = timers st /\
  in_flight (handleSubmit st) = in_flight st /\
  first_invalid (form st) <> None /\
  focused (handleSubmit st) = first_invalid (form st).
Proof.
  intros M V.
  destruct (Obj.keys (validateAll (form st))) as [|firstField more] eqn:K.
  { destruct (validateAll (form st)); [congruence | discriminate K]. }
  assert (F : first_invalid (form st) = Some firstField).
  { unfold first_invalid. now rewrite find_filter, <- validateAll_keys, K. }
  assert (C : In firstField controls).
  { assert (I : In firstField (filter (invalid (form st)) field_order)).
    { rewrite <- validateAll_keys, K. now left. }
    apply filter_In in I. apply I. }
  rewrite (handleSubmit_blocked st firstField more M K C), F. simpl.
  repeat split; try congruence.
  intros f Hf. now apply validateAll_get.
Qed.

Lemma blocked_submission_witness :
  let st := mkState [(k_name, []); (k_email, lit "x"); (k_message, lit "hi")]
                    [] false false true None 0 [] in
  submissionState (handleSubmit st) = Idle /\
  errors (handleSubmit st) =
    [(k_name, name_error); (k_email, email_error); (k_message, message_error)] /\
  focused (handleSubmit st) = Some k_name.
Proof.
  intros st.
  destruct (blocked_submission st) as (E & _ & _ & S & _ & _ & _ & F).
  - reflexivity.
  - discriminate.
  - rewrite S, E, F. repeat split.
Defined.

(** ** Timers *)

Lemma setForm_frame upd st :
  timers (setForm upd st) = timers st /\ now (setForm upd st) = now st /\
  mounted (setForm upd st) = mounted st /\
  isSubmitting (setForm upd st) = isSubmitting st /\
  mailSent (setForm upd st) = mailSent st.
Proof. unfold setForm. destruct (mounted st) eqn:M; simpl; auto. Qed.


Lemma setIsSubmitting_frame b st :
  timers (setIsSubmitting b st) = timers st /\
  now (setIsSubmitting b st) = now st /\
  mounted (setIsSubmitting b st) = mounted st /\
  mailSent (setIsSubmitting b st) = mailSent st /\
  form (setIsSubmitting b st) = form st.
Proof. unfold setIsSubmitting. destruct (mounted st) eqn:M; simpl; auto. Qed.

Lemma setMailSent_frame b st :
  timers (setMailSent b st) = timers st /\ now (setMailSent b st) = now st /\
  mounted (setMailSent b st) = mounted st /\
  isSubmitting (setMailSent b st) = isSubmitting st /\
  form (setMailSent b st) = form st /\ errors (setMailSent b st) = errors st.
Proof. unfold setMailSent. destruct (mounted st) eqn:M; simpl; auto 6. Qed.

Lemma run_callback_timers cb st :
  timers (run_callback cb st) =
  timers st ++ match cb with
               | SendDone => [mkTimer (now st + 3000) HideToast]
               | HideToast => []
               end.
Proof.
  destruct cb; simpl.
  - destruct (setForm_frame (fun _ => emptyForm)
                (setMailSent true (setIsSubmitting false st))) as (-> & -> & _).
    destruct (setMailSent_frame true (setIsSubmitting false st)) as (-> & -> & _).
    now destruct (setIsSubmitting_frame false st) as (-> & -> & _).
  - destruct (setMailSent_frame false st) as (-> & _). now rewrite app_nil_r.
Qed.

Lemma run_callback_isSubmitting cb st :
  isSubmitting (run_callback cb st) =
  match cb with
  | SendDone => if mounted st then false else isSubmitting st
  | HideToast => isSubmitting st
  end.
Proof.
  destruct cb; destruct st as [fm er sub sent [|] fo nw ts]; reflexivity.
Qed.

Lemma run_callback_mounted cb st : mounted (run_callback cb st) = mounted st.
Proof.
  destruct cb; destruct st as [fm er sub sent [|] fo nw ts]; reflexivity.
Qed.

Lemma weight_app ts us : weight (ts ++ us) = (weight ts + weight us)%nat.
Proof.
  induction ts as [|t ts IH]; simpl; [reflexivity|]. rewrite IH. lia.
Qed.

Lemma pop_earliest_none ts : pop_earliest ts = None -> ts = [].
Proof.
  destruct ts as [|t ts]; [reflexivity|]. simpl.
  destruct (pop_earliest ts) as [[u rest]|]; [|discriminate].
  destruct (due u <? due t); discriminate.
Qed.

Lemma pop_earliest_weight ts : forall t rest,
  pop_earliest ts = Some (t, rest) ->
  weight ts = (weight [t] + weight rest)%nat.
Proof.
  induction ts as [|t0 ts IH]; intros t rest; simpl; [discriminate|].
  destruct (pop_earliest ts) as [[u r]|] eqn:P.
  - specialize (IH u r eq_refl). destruct (due u <? due t0); intros E;
      injection E as <- <-; simpl in *; lia.
  - apply pop_earliest_none in P; subst ts. intros E; injection E as <- <-.
    simpl. lia.
Qed.

Lemma pop_earliest_sends ts : forall t rest,
  pop_earliest ts = Some (t, rest) ->
  List.length (filter is_send ts) =
  ((if is_send t then 1 else 0) + List.length (filter is_send rest))%nat.
Proof.
  induction ts as [|t0 ts IH]; intros t rest; simpl; [discriminate|].
  destruct (pop_earliest ts) as [[u r]|] eqn:P.
  - specialize (IH u r eq_refl). destruct (due u <? due t0); intros E;
      injection E as <- <-; simpl;
      destruct (is_send t0); destruct (is_send u); simpl in *; lia.
  - apply pop_earliest_none in P; subst ts. intros E; injection E as <- <-.
    simpl. destruct (is_send t0); reflexivity.
Qed.

(** The timer popped is due no later than any other. *)
Lemma pop_earliest_min ts : forall t rest,
  pop_earliest ts = Some (t, rest) ->
  forall u, In u ts -> due t <= due u.
Proof.
  induction ts as [|t0 ts IH]; intros t rest; simpl; [discriminate|].
  destruct (pop_earliest ts) as [[m r]|] eqn:P.
  - specialize (IH m r eq_refl).
    destruct (N.ltb_spec (due m) (due t0)); intros E; injection E as <- <-;
      intros u [<- | Hu]; try lia.
    + now apply IH.
    + specialize (IH u Hu). lia.
  - apply pop_earliest_none in P; subst ts. intros E; injection E as <- <-.
    intros u [<- | []]. lia.
Qed.

Lemma fire_next_weight deadline st st' :
  fire_next deadline st = Some st' ->
  (weight (timers st') < weight (timers st))%nat.
Proof.
  unfold fire_next. destruct (pop_earliest (timers st)) as [[t rest]|] eqn:P;
    [|discriminate].
  destruct (due t <=? deadline); [|discriminate].
  intros E; injection E as <-.
  rewrite run_callback_timers, weight_app, (pop_earliest_weight _ _ _ P). simpl.
  destruct (run t); simpl; lia.
Qed.

(** The fuel [elapse] gives [fire_all] is enough: when it returns, no timer
    due by the deadline is left. *)
Lemma fire_all_done deadline : forall fuel st,
  (weight (timers st) <= fuel)%nat ->
  fire_next deadline (fire_all fuel deadline st) = None.
Proof.
  induction fuel as [|fuel IH]; intros st W; simpl.
  - unfold fire_next. destruct (timers st) as [|t ts]; [reflexivity|].
    simpl in W. destruct (run t); lia.
  - destruct (fire_next deadline st) as [st'|] eqn:F; [|exact F].
    apply IH. apply fire_next_weight in F. lia.
Qed.

Lemma elapse_quiescent d st t :
  In t (timers (elapse d st)) -> now (elapse d st) < due t.
Proof.
  unfold elapse. simpl.
  pose proof (fire_all_done (now st + d) (weight (timers st)) st (le_n _)) as F.
  unfold fire_next in F.
  destruct (pop_earliest (timers (fire_all _ _ st))) as [[m rest]|] eqn:P.
  - destruct (N.leb_spec (due m) (now st + d)); [discriminate|].
    intros Ht. pose proof (pop_earliest_min _ _ _ P t Ht). lia.
  - apply pop_earliest_none in P. rewrite P. intros [].
Qed.

(** *** What a step leaves of the form *)

Lemma reachable_run evs : forall st, reachable st -> reachable (run_events evs st).
Proof.
  induction evs as [|ev evs IH]; intros st R; simpl; [exact R|].
  apply IH. now constructor.
Qed.


(** ** One send at a time *)

Lemma in_flight_app st extra :
  List.length (filter is_send (timers st ++ extra)) =
  (in_flight st + List.length (filter is_send extra))%nat.
Proof. unfold in_flight. now rewrite filter_app, length_app. Qed.

Lemma fire_next_one_send deadline st st' :
  fire_next deadline st = Some st' -> one_send st -> one_send st'.
Proof.
  unfold fire_next, one_send, in_flight.
  destruct (pop_earliest (timers st)) as [[t rest]|] eqn:P; [|discriminate].
  destruct (due t <=? deadline); [|discriminate].
  intros E [L S]; injection E as <-.
  rewrite (pop_earliest_sends _ _ _ P) in L, S.
  rewrite run_callback_timers, run_callback_isSubmitting. simpl.
  rewrite filter_app, length_app.
  assert (Hs : is_send t = match run t with SendDone => true | HideToast => false end)
    by reflexivity.
  rewrite Hs in L, S.
  set (n := List.length (filter is_send rest)) in *.
  destruct (run t); simpl in *.
  - split; [lia|]. intros; lia.
  - rewrite Nat.add_0_r. split; assumption.
Qed.

Lemma fire_all_one_send deadline : forall fuel st,
  one_send st -> one_send (fire_all fuel deadline st).
Proof.
  induction fuel as [|fuel IH]; intros st H; simpl; [exact H|].
  destruct (fire_next deadline st) as [st'|] eqn:F; [|exact H].
  apply IH. exact (fire_next_one_send _ _ _ F H).
Qed.

Lemma handleSubmit_one_send st :
  mounted st = true -> isSubmitting st = false ->
  one_send st -> one_send (handleSubmit st).
Proof.
  intros M Sub [L S].
  assert (Z : in_flight st = O).
  { destruct (in_flight st) as [|[|n]] eqn:E; [reflexivity | | lia].
    specialize (S eq_refl). congruence. }
  destruct (validateAll (form st)) as [|kv found] eqn:V.
  - rewrite (handleSubmit_sends st M V). unfold one_send, in_flight. simpl.
    rewrite in_flight_app, Z. simpl. split; [lia | reflexivity].
  - destruct kv as [k e].
    assert (K : Obj.keys (validateAll (form st)) = k :: Obj.keys found)
      by now rewrite V.
    assert (C : In k controls).
    { assert (I : In k (filter (invalid (form st)) field_order)).
      { rewrite <- validateAll_keys, K. now left. }
      apply filter_In in I. apply I. }
    rewrite (handleSubmit_blocked st k _ M K C). unfold one_send, in_flight.
    simpl. fold (in_flight st). rewrite Z, Sub. split; [lia | discriminate].
Qed.

(** Every reachable state has at most one send in flight, and has one only
    while [isSubmitting]. *)
Lemma reachable_one_send st : reachable st -> one_send st.
Proof.
  induction 1 as [|st ev R IH].
  - unfold one_send, in_flight; simpl. split; [lia | discriminate].
  - destruct ev as [name value|name value| |key|d|]; simpl.
    + destruct (mounted st) eqn:M; [|exact IH].
      rewrite (handleChange_mounted _ _ _ M). exact IH.
    + destruct (mounted st) eqn:M; [|exact IH].
      rewrite (handleBlur_mounted _ _ _ M). exact IH.
    + destruct (mounted st) eqn:M; [|exact IH].
      unfold submitDisabled. destruct (isSubmitting st) eqn:Sub; [exact IH|].
      simpl. now apply handleSubmit_one_send.
    + destruct (mounted st) eqn:M; [|exact IH].
      unfold onKey. destruct (eqb key _); [|exact IH].
      unfold setMailSent; rewrite M. exact IH.
    + unfold elapse. apply (fire_all_one_send (now st + d) (weight (timers st))) in IH.
      exact IH.
    + exact IH.
Qed.

Lemma toast_refilled_reachable : reachable toast_refilled.
Proof.
  unfold toast_refilled, toast_up, sending.
  apply reachable_run, reachable_step, reachable_run, reachable_init.
Qed.

(** C4 as stated fails: with the toast up (Succeeded) and the form filled
    again, the submit button is enabled and a submission starts a send. *)
Lemma submit_while_succeeded :
  reachable toast_refilled /\
  submissionState toast_refilled = Succeeded /\
  in_flight toast_refilled = 0%nat /\
  in_flight (dispatch Submit toast_refilled) = 1%nat /\
  ~ (forall st, reachable st ->
       (in_flight st < in_flight (dispatch Submit st))%nat ->
       submissionState st = Idle).
Proof.
  split; [exact toast_refilled_reachable|].
  split; [reflexivity|]. split; [reflexivity|]. split; [reflexivity|].
  intros H. specialize (H toast_refilled toast_refilled_reachable).
  assert (L : (in_flight toast_refilled < in_flight (dispatch Submit toast_refilled))%nat).
  { change (0 < 1)%nat. lia. }
  specialize (H L). vm_compute in H. discriminate H.
Qed.

(** C4, amended. In every reachable state a submission can only be
    attempted while the state is not Sending (Idle or Succeeded: the button
    is disabled by [isSubmitting] alone): the submit trigger while Sending
    changes nothing, a send is in flight only in Sending, and at most one
    send is in flight at any time, before and after a submit trigger. *)
Theorem one_send_in_flight (st : state) :
  reachable st ->
  (in_flight st <= 1)%nat /\
  (in_flight st = 1%nat -> submissionState st = Sending) /\
  (submissionState st = Sending -> dispatch Submit st = st) /\
  ((in_flight st < in_flight (dispatch Submit st))%nat ->
     submissionState st <> Sending /\ in_flight st = 0%nat) /\
  (in_flight (dispatch Submit st) <= 1)%nat.
Proof.
  intros R. destruct (reachable_one_send st R) as [L S].
  assert (G : submissionState st = Sending -> dispatch Submit st = st).
  { unfold submissionState, dispatch, submitDisabled.
    destruct (isSubmitting st); [now rewrite andb_false_r|].
    destruct (mailSent st); discriminate. }
  assert (L' : (in_flight (dispatch Submit st) <= 1)%nat).
  { apply (reachable_one_send (dispatch Submit st)). now constructor. }
  split; [exact L|]. split; [|split; [exact G|split]].
  - intros E. unfold submissionState. now rewrite (S E).
  - intros Lt. split.
    + intros E. rewrite (G E) in Lt. lia.
    + lia.
  - exact L'.
Qed.

Lemma one_send_in_flight_witness :
  reachable sending /\ (in_flight sending <= 1)%nat /\
  dispatch Submit sending = sending.
Proof.
  assert (R : reachable sending).
  { unfold sending. apply reachable_run, reachable_init. }
  destruct (one_send_in_flight sending R) as (L & _ & G & _).
  split; [exact R|]. split; [exact L|]. apply G. reflexivity.
Defined.

(** ** Dismissing the toast *)

(** C8. Whenever the state of the mounted component is Succeeded, the
    Escape key makes it Idle at once, whatever the clock shows and whatever
    timers are pending; nothing else changes. *)
Theorem escape_dismisses (st : state) :
  mounted st = true ->
  submissionState st = Succeeded ->
  submissionState (dispatch (KeyDown (lit "Escape")) st) = Idle /\
  now (dispatch (KeyDown (lit "Escape")) st) = now st /\
  timers (dispatch (KeyDown (lit "Escape")) st) = timers st /\
  form (dispatch (KeyDown (lit "Escape")) st) = form st /\
  errors (dispatch (KeyDown (lit "Escape")) st) = errors st.
Proof.
  intros M S. unfold dispatch. rewrite M.
  destruct st as [fm er sub sent mt fo nw ts]; simpl in M; subst mt.
  unfold submissionState in S; simpl in S.
  destruct sub; [discriminate|]. destruct sent; [|discriminate].
  repeat split.
Qed.

Lemma escape_dismisses_witness :
  submissionState (elapse 1234 toast_up) = Succeeded /\
  submissionState (dispatch (KeyDown (lit "Escape")) (elapse 1234 toast_up)) = Idle.
Proof.
  split; [reflexivity|].
  apply (escape_dismisses (elapse 1234 toast_up)); reflexivity.
Defined.

(** The timer of a dismissed toast stays pending: when a second send
    succeeds before it fires, it takes the second toast down early. *)
Example stale_timer_hides_next_toast :
  let again := run_events (KeyDown (lit "Escape") :: fill ++ [Submit; Elapse 700])
                          toast_up in
  submissionState again = Succeeded /\
  submissionState (elapse 2300 again) = Idle.
Proof. split; reflexivity. Qed.

(** ** Teardown *)

(** C9 as stated fails: the send timer pending at teardown is still pending
    after it, fires when due and schedules the toast timer. *)
Lemma timer_survives_unmount :
  timers sending = [mkTimer 700 SendDone] /\
  timers (dispatch Unmount sending) = [mkTimer 700 SendDone] /\
  timers (dispatch (Elapse 700) (dispatch Unmount sending)) =
    [mkTimer 3700 HideToast].
Proof. repeat split. Qed.

Lemma run_callback_unmounted cb st :
  mounted st = false ->
  run_callback cb st =
  mkState (form st) (errors st) (isSubmitting st) (mailSent st) false
          (focused st) (now st)
          (timers st ++ match cb with
                        | SendDone => [mkTimer (now st + 3000) HideToast]
                        | HideToast => []
                        end).
Proof.
  intros M. destruct st as [fm er sub sent mt fo nw ts]; simpl in M; subst mt.
  destruct cb; simpl; unfold setMailSent, setTimeout; simpl;
    rewrite ?app_nil_r; reflexivity.
Qed.

(** C9, amended. Teardown removes the keydown listener and nothing else: no
    scheduled timer is cancelled. A callback that runs after teardown
    changes none of the four hook cells (its updates go to an unmounted
    component), and the send callback still schedules the 3000ms timer. *)
Theorem unmount_keeps_timers (st : state) :
  timers (dispatch Unmount st) = timers st /\
  mounted (dispatch Unmount st) = false /\
  (forall key, dispatch (KeyDown key) (dispatch Unmount st) = dispatch Unmount st) /\
  (forall cb,
     let st' := run_callback cb (dispatch Unmount st) in
     form st' = form st /\ errors st' = errors st /\
     isSubmitting st' = isSubmitting st /\ mailSent st' = mailSent st /\
     timers st' = timers st ++ match cb with
                               | SendDone => [mkTimer (now st + 3000) HideToast]
                               | HideToast => []
                               end).
Proof.
  split; [reflexivity|]. split; [reflexivity|]. split; [reflexivity|].
  intros cb st'. unfold st'.
  rewrite run_callback_unmounted by reflexivity. simpl. repeat split.
Qed.

(** * Further properties of the controller *)

(** ** White space around a value *)

Lemma trimStart_head s c r : trimStart s = c :: r -> is_white_space c = false.
Proof.
  induction s as [|a s IH]; cbn [trimStart]; [discriminate|].
  destruct (is_white_space a) eqn:W; [exact IH|].
  intros E; injection E as <- _. exact W.
Qed.

Lemma trimStart_clean c r : is_white_space c = false -> trimStart (c :: r) = c :: r.
Proof. intros W; cbn [trimStart]. now rewrite W. Qed.

Lemma trimStart_fix s : trimStart (trimStart s) = trimStart s.
Proof.
  destruct (trimStart s) as [|c r] eqn:E; [reflexivity|].
  apply trimStart_clean. exact (trimStart_head _ _ _ E).
Qed.

(** What [trimStart] drops is a run of white space. *)
Lemma trimStart_split s :
  exists w, s = w ++ trimStart s /\ forallb is_white_space w = true.
Proof.
  induction s as [|a s (w & E & W)]; cbn [trimStart].
  - now exists [].
  - destruct (is_white_space a) eqn:Wa.
    + exists (a :: w). cbn [forallb app]. rewrite Wa, W.
      split; [now rewrite <- E | reflexivity].
    + now exists [].
Qed.

Lemma trimEnd_split u :
  exists w, u = trimEnd u ++ w /\ forallb is_white_space w = true.
Proof.
  destruct (trimStart_split (rev u)) as (w & E & W).
  exists (rev w). split.
  - unfold trimEnd. rewrite <- rev_app_distr, <- E. now rewrite rev_involutive.
  - rewrite forallb_forall in *. intros x Hx. apply W. now apply in_rev.
Qed.

Lemma trimEnd_fix u : trimEnd (trimEnd u) = trimEnd u.
Proof. unfold trimEnd. now rewrite rev_involutive, trimStart_fix. Qed.

Lemma trimStart_trimEnd u : trimStart u = u -> trimStart (trimEnd u) = trimEnd u.
Proof.
  intros F. destruct (trimEnd_split u) as (w & E & _).
  destruct (trimEnd u) as [|c p]; [reflexivity|].
  apply trimStart_clean. rewrite E in F.
  exact (trimStart_head ((c :: p) ++ w) c (p ++ w) F).
Qed.

Lemma trim_fix s : trim (trim s) = trim s.
Proof.
  unfold trim. rewrite (trimStart_trimEnd _ (trimStart_fix s)). apply trimEnd_fix.
Qed.

Lemma trim_empty s : s = [] -> trim s = [].
Proof. intros ->; reflexivity. Qed.

(** In [!value || bad], the first test adds nothing when the empty trimmed
    value is bad anyway. *)
Lemma guard_redundant (s : jsstring) (bad : bool) :
  (s = [] -> bad = true) -> negb (truthy s) || bad = bad.
Proof.
  destruct s; simpl; [|reflexivity]. intros H. now rewrite H.
Qed.

(** X1. White space around a value never matters to a validator: every
    field gets the same verdict for a value and for the value trimmed. *)
Theorem validateField_trim (f s : jsstring) :
  validateField f (trim s) = validateField f s.
Proof.
  assert (L : forall k, 2 <= k -> trim s = [] ->
              (JsString.length (trim s) <? k) = true).
  { intros k Hk T. rewrite T. apply N.ltb_lt. unfold JsString.length; simpl. lia. }
  assert (E : trim s = [] -> negb (test emailRegex (trim s)) = true).
  { intros T. rewrite T. reflexivity. }
  assert (T : s = [] -> trim s = []) by apply trim_empty.
  unfold validateField. rewrite trim_fix.
  destruct (eqb f k_name); [|destruct (eqb f k_email); [|destruct (eqb f k_message)]].
  - rewrite (guard_redundant (trim s)), (guard_redundant s); [reflexivity | |];
      intros H; apply (L 2); first [lia | exact H | exact (T H)].
  - rewrite (guard_redundant (trim s)), (guard_redundant s); [reflexivity | |];
      intros H; apply E; first [exact H | exact (T H)].
  - rewrite (guard_redundant (trim s)), (guard_redundant s); [reflexivity | |];
      intros H; apply (L 10); first [lia | exact H | exact (T H)].
  - reflexivity.
Qed.

(** ** What an accepted email looks like *)

Lemma plain_count a : Forall plain a -> count_occ N.eq_dec a 64 = O.
Proof.
  induction 1 as [|c a [_ Hc] _ IH]; simpl; [reflexivity|].
  destruct (N.eq_dec c 64); [contradiction | exact IH].
Qed.

Lemma plain_no_space a :
  Forall plain a -> forallb (fun c => negb (is_white_space c)) a = true.
Proof.
  induction 1 as [|c a [Hc _] _ IH]; simpl; [reflexivity|].
  now rewrite Hc, IH.
Qed.

(** X2. An email value is accepted only if, once trimmed, it holds exactly
    one [@], no white space at all, a dot somewhere after the [@], and at
    least five code units. *)
Theorem accepted_email (s : jsstring) :
  validateField k_email s = [] ->
  count_occ N.eq_dec (trim s) 64 = 1%nat /\
  forallb (fun c => negb (is_white_space c)) (trim s) = true /\
  (exists a r, trim s = a ++ 64 :: r /\ In 46 r) /\
  5 <= JsString.length (trim s).
Proof.
  rewrite validateField_email. intros H.
  apply guard_passes in H; [|discriminate]. destruct H as [_ H].
  apply negb_false_iff, test_emailRegex in H.
  destruct H as (a & b & c & -> & Ha & Hb & Hc & Pa & Pb & Pc).
  split; [|split; [|split]].
  - rewrite count_occ_app. simpl. rewrite count_occ_app. simpl.
    rewrite !plain_count by assumption. reflexivity.
  - rewrite forallb_app. simpl. rewrite forallb_app. simpl.
    now rewrite !plain_no_space by assumption.
  - exists a, (b ++ 46 :: c). split; [reflexivity|].
    apply in_or_app. right. now left.
  - unfold JsString.length. rewrite length_app. simpl. rewrite length_app. simpl.
    destruct a; [congruence|]. destruct b; [congruence|]. destruct c; [congruence|].
    simpl. lia.
Qed.

Lemma accepted_email_witness :
  validateField k_email (lit " a@b.co ") = [] /\
  count_occ N.eq_dec (trim (lit " a@b.co ")) 64 = 1%nat.
Proof.
  assert (H : validateField k_email (lit " a@b.co ") = []) by reflexivity.
  split; [exact H|]. apply (accepted_email (lit " a@b.co ") H).
Defined.

(** ** [validateAll] and [validateField] *)

Lemma get_in_keys (o : Obj.obj) k v : Obj.get o k = Some v -> In k (Obj.keys o).
Proof.
  induction o as [|[k' v'] o IH]; simpl; [discriminate|].
  destruct (eqb k' k) eqn:E.
  - apply eqb_eq in E. now left.
  - intros H. right. now apply IH.
Qed.

Lemma validateAll_get_other values f :
  ~ In f field_order -> Obj.get (validateAll values) f = None.
Proof.
  intros Hf. destruct (Obj.get (validateAll values) f) as [e|] eqn:G; [|reflexivity].
  apply get_in_keys in G. rewrite validateAll_keys in G.
  apply filter_In in G. destruct G as [G _]. contradiction.
Qed.

(** X3. The two validators agree: [validateAll] has an entry for a field
    exactly when [validateField] has a message for that field's value, and
    the entry is that message; it has no other entries, lists its keys in
    the order name, email, message, and is empty exactly when all three
    values pass [validateField]. *)
Theorem validateAll_agrees (values : Obj.obj) :
  (forall f, In f field_order ->
     Obj.get (validateAll values) f =
     if truthy (validateField f (str (Obj.get values f)))
     then Some (validateField f (str (Obj.get values f))) else None) /\
  (forall f, ~ In f field_order -> Obj.get (validateAll values) f = None) /\
  Obj.keys (validateAll values) =
    filter (fun f => truthy (validateField f (str (Obj.get values f)))) field_order /\
  (validateAll values = [] <->
     forall f, In f field_order -> validateField f (str (Obj.get values f)) = []).
Proof.
  split; [exact (validateAll_get values)|].
  split; [exact (validateAll_get_other values)|].
  split; [exact (validateAll_keys values)|].
  split.
  - intros E f Hf. pose proof (validateAll_get values f Hf) as G.
    rewrite E in G. simpl in G. unfold invalid in G.
    destruct (validateField f _); [reflexivity | discriminate].
  - intros H. pose proof (validateAll_keys values) as K.
    assert (F : filter (invalid values) field_order = []).
    { unfold field_order, invalid. cbn [filter].
      rewrite (H k_name), (H k_email), (H k_message);
        [reflexivity | | |]; unfold field_order; cbn [In]; auto. }
    rewrite F in K. destruct (validateAll values); [reflexivity | discriminate].
Qed.

(** ** How the handlers compose *)

Lemma set_overwrite k v w (o : Obj.obj) : Obj.set k w (Obj.set k v o) = Obj.set k w o.
Proof.
  induction o as [|[k' v'] o IH]; simpl.
  - now rewrite eqb_refl.
  - destruct (eqb k' k) eqn:E; simpl; rewrite E; [reflexivity | now rewrite IH].
Qed.

Lemma set_present k v (o : Obj.obj) : Obj.get o k = Some v -> Obj.set k v o = o.
Proof.
  induction o as [|[k' v'] o IH]; simpl; [discriminate|].
  destruct (eqb k' k) eqn:E.
  - intros H; injection H as ->. reflexivity.
  - intros H. now rewrite IH.
Qed.

Lemma delete_absent k (o : Obj.obj) : Obj.get o k = None -> Obj.delete k o = o.
Proof.
  induction o as [|[k' v'] o IH]; simpl; [reflexivity|].
  destruct (eqb k' k) eqn:E; [discriminate|].
  intros H. now rewrite IH.
Qed.

Lemma validateField_known f v : validateField f v <> [] -> In f field_order.
Proof.
  intros H. unfold validateField in H. unfold field_order.
  destruct (eqb f k_name) eqn:E1; [apply eqb_eq in E1; subst; cbn [In]; auto|].
  destruct (eqb f k_email) eqn:E2; [apply eqb_eq in E2; subst; cbn [In]; auto|].
  destruct (eqb f k_message) eqn:E3; [apply eqb_eq in E3; subst; cbn [In]; auto|].
  congruence.
Qed.

(** Recomputing a field's error from the value that [validateAll] has
    just judged changes nothing. *)
Lemma recompute_validateAll values f v :
  Obj.get values f = Some v ->
  recompute f v (validateAll values) = validateAll values.
Proof.
  intros G. unfold recompute.
  destruct (truthy (validateField f v)) eqn:T.
  - apply set_present.
    assert (Hf : In f field_order).
    { apply (validateField_known f v). now apply truthy_true. }
    rewrite (validateAll_get values f Hf). unfold invalid. rewrite G. simpl.
    now rewrite T.
  - apply delete_absent.
    destruct (in_dec (list_eq_dec N.eq_dec) f field_order) as [Hf | Hf].
    + rewrite (validateAll_get values f Hf). unfold invalid. rewrite G. simpl.
      now rewrite T.
    + destruct (Obj.get (validateAll values) f) as [e|] eqn:Ge; [|reflexivity].
      exfalso. apply Hf.
      assert (K : In f (Obj.keys (validateAll values))).
      { clear -Ge. induction (validateAll values) as [|[k' v'] o IH];
          simpl in *; [discriminate|].
        destruct (eqb k' f) eqn:E; [apply eqb_eq in E; auto | right; auto]. }
      rewrite validateAll_keys in K. apply filter_In in K. apply K.
Qed.

(** Whichever branch it takes, [handleSubmit] stores [validateAll] of the
    values and keeps the values. *)
Lemma handleSubmit_cells st :
  mounted st = true ->
  errors (handleSubmit st) = validateAll (form st) /\
  form (handleSubmit st) = form st /\
  mounted (handleSubmit st) = true /\
  mailSent (handleSubmit st) = mailSent st /\
  now (handleSubmit st) = now st.
Proof.
  intros M. destruct (validateAll (form st)) as [|[k e] found] eqn:V.
  - rewrite (handleSubmit_sends st M V). simpl. auto.
  - assert (K : Obj.keys (validateAll (form st)) = k :: Obj.keys found)
      by now rewrite V.
    assert (C : In k controls).
    { assert (I : In k (filter (invalid (form st)) field_order)).
      { rewrite <- validateAll_keys, K. now left. }
      apply filter_In in I. apply I. }
    rewrite (handleSubmit_blocked st k _ M K C). simpl. auto.
Qed.

Lemma validateAll_nil values :
  validateAll values = [] <->
  forall f, In f field_order -> validateField f (str (Obj.get values f)) = [].
Proof.
  split.
  - intros E f Hf. pose proof (validateAll_get values f Hf) as G.
    rewrite E in G. simpl in G. unfold invalid in G.
    destruct (validateField f _); [reflexivity | discriminate].
  - intros H. pose proof (validateAll_keys values) as K.
    assert (F : filter (invalid values) field_order = []).
    { unfold field_order, invalid. cbn [filter].
      rewrite (H k_name), (H k_email), (H k_message);
        [reflexivity | | |]; unfold field_order; cbn [In]; auto. }
    rewrite F in K. destruct (validateAll values); [reflexivity | discriminate].
Qed.

(** X4. A submit starts a send exactly when all three values pass their
    validators: then, and only then, [handleSubmit] queues the send callback
    700ms ahead, sets [isSubmitting] and leaves no error; otherwise the
    timer queue and [isSubmitting] are as before. *)
Theorem submit_sends_iff_valid (st : state) :
  mounted st = true ->
  ((forall f, In f field_order ->
      validateField f (str (Obj.get (form st) f)) = []) <->
   timers (handleSubmit st) = timers st ++ [mkTimer (now st + 700) SendDone]) /\
  (timers (handleSubmit st) = timers st ++ [mkTimer (now st + 700) SendDone] ->
   isSubmitting (handleSubmit st) = true /\ errors (handleSubmit st) = []) /\
  (timers (handleSubmit st) <> timers st ++ [mkTimer (now st + 700) SendDone] ->
   timers (handleSubmit st) = timers st /\
   isSubmitting (handleSubmit st) = isSubmitting st).
Proof.
  intros M. rewrite <- validateAll_nil.
  destruct (validateAll (form st)) as [|[k e] found] eqn:V.
  - rewrite (handleSubmit_sends st M V). simpl.
    split; [tauto|]. split; [auto | intros H; now elim H].
  - assert (K : Obj.keys (validateAll (form st)) = k :: Obj.keys found)
      by now rewrite V.
    assert (C : In k controls).
    { assert (I : In k (filter (invalid (form st)) field_order)).
      { rewrite <- validateAll_keys, K. now left. }
      apply filter_In in I. apply I. }
    rewrite (handleSubmit_blocked st k _ M K C). simpl.
    assert (D : timers st <> timers st ++ [mkTimer (now st + 700) SendDone]).
    { intros E. apply (f_equal (@List.length _)) in E.
      rewrite length_app in E. simpl in E. lia. }
    split; [split; [discriminate | intros E; now elim D]|].
    split; [intros E; now elim D | auto].
Qed.

Lemma submit_sends_iff_valid_witness :
  timers (handleSubmit (run_events fill init)) = [mkTimer 700 SendDone] /\
  isSubmitting (handleSubmit (run_events fill init)) = true.
Proof.
  destruct (submit_sends_iff_valid (run_events fill init) eq_refl) as (_ & H & _).
  split; [reflexivity|]. apply H. reflexivity.
Defined.

(** X5. Leaving a field after typing in it changes nothing: [handleBlur]
    with the pair [handleChange] has just handled is the identity, and so is
    a second [handleBlur] with the same pair. *)
Theorem blur_after_change (name value : jsstring) (st : state) :
  handleBlur name value (handleChange name value st) = handleChange name value st /\
  handleBlur name value (handleBlur name value st) = handleBlur name value st.
Proof.
  destruct (mounted st) eqn:M.
  - rewrite (handleChange_mounted _ _ st M), (handleBlur_mounted _ _ st M).
    rewrite !handleBlur_mounted by reflexivity. simpl.
    now rewrite !recompute_twice.
  - rewrite (handleChange_unmounted _ _ st M), !(handleBlur_unmounted _ _ st M).
    split; reflexivity.
Qed.

(** X6. Only the last value typed in a field counts: after two changes of
    the same field the values, and the error looked up for every key, are
    those after the second change alone; nothing else differs either. *)
Theorem last_change_wins (f v1 v2 : jsstring) (st : state) :
  let twice := handleChange f v2 (handleChange f v1 st) in
  let once := handleChange f v2 st in
  form twice = form once /\
  (forall k, Obj.get (errors twice) k = Obj.get (errors once) k) /\
  isSubmitting twice = isSubmitting once /\ mailSent twice = mailSent once /\
  focused twice = focused once /\ timers twice = timers once /\
  now twice = now once.
Proof.
  intros twice once. unfold twice, once. destruct (mounted st) eqn:M.
  - rewrite (handleChange_mounted f v1 st M), (handleChange_mounted f v2 st M).
    rewrite handleChange_mounted by reflexivity. simpl.
    split; [apply set_overwrite|]. split; [|auto 6].
    intros k. destruct (eqb k f) eqn:E.
    + apply eqb_eq in E; subst k. now rewrite !recompute_same.
    + apply eqb_neq in E. now rewrite !recompute_other.
  - rewrite !(handleChange_unmounted _ _ st M). auto 8.
Qed.

(** X7. Changes of two different fields commute as far as any read can
    tell: either order gives the same value and the same error for every
    key. *)
Theorem changes_commute (f g v w : jsstring) (st : state) :
  f <> g ->
  let fg := handleChange g w (handleChange f v st) in
  let gf := handleChange f v (handleChange g w st) in
  (forall k, Obj.get (form fg) k = Obj.get (form gf) k) /\
  (forall k, Obj.get (errors fg) k = Obj.get (errors gf) k).
Proof.
  intros D fg gf. unfold fg, gf. destruct (mounted st) eqn:M.
  - rewrite (handleChange_mounted f v st M), (handleChange_mounted g w st M).
    rewrite !handleChange_mounted by reflexivity. simpl.
    split; intros k.
    + destruct (eqb k f) eqn:Ef; [apply eqb_eq in Ef; subst k|apply eqb_neq in Ef].
      * now rewrite get_set_other, !get_set_same by assumption.
      * destruct (eqb k g) eqn:Eg; [apply eqb_eq in Eg; subst k|apply eqb_neq in Eg].
        -- rewrite get_set_same, get_set_other, get_set_same by congruence.
           reflexivity.
        -- now rewrite !get_set_other by assumption.
    + destruct (eqb k f) eqn:Ef; [apply eqb_eq in Ef; subst k|apply eqb_neq in Ef].
      * rewrite recompute_other, !recompute_same by assumption. reflexivity.
      * destruct (eqb k g) eqn:Eg; [apply eqb_eq in Eg; subst k|apply eqb_neq in Eg].
        -- rewrite recompute_same, recompute_other, recompute_same by congruence.
           reflexivity.
        -- now rewrite !recompute_other by assumption.
  - rewrite !(handleChange_unmounted _ _ st M). split; reflexivity.
Qed.

Lemma changes_commute_witness :
  k_name <> k_email /\
  Obj.get (errors (handleChange k_email (lit "x") (handleChange k_name (lit "S") init)))
          k_name =
  Obj.get (errors (handleChange k_name (lit "S") (handleChange k_email (lit "x") init)))
          k_name.
Proof.
  assert (D : k_name <> k_email) by discriminate.
  split; [exact D|].
  apply (changes_commute k_name k_email (lit "S") (lit "x") init D).
Defined.

(** The order of the entries does depend on the order of the changes. *)
Example changes_order_entries :
  Obj.keys (errors (handleChange k_email (lit "x") (handleChange k_name (lit "S") init)))
    = [k_name; k_email] /\
  Obj.keys (errors (handleChange k_name (lit "S") (handleChange k_email (lit "x") init)))
    = [k_email; k_name].
Proof. split; reflexivity. Qed.

(** X8. A submit that validation blocks is idempotent: submitting again
    without touching the form leaves the state exactly as the first submit
    left it. *)
Theorem blocked_submit_idempotent (st : state) :
  mounted st = true ->
  validateAll (form st) <> [] ->
  handleSubmit (handleSubmit st) = handleSubmit st.
Proof.
  intros M V.
  destruct (validateAll (form st)) as [|[k e] found] eqn:Vf; [congruence|].
  assert (K : Obj.keys (validateAll (form st)) = k :: Obj.keys found)
    by now rewrite Vf.
  assert (C : In k controls).
  { assert (I : In k (filter (invalid (form st)) field_order)).
    { rewrite <- validateAll_keys, K. now left. }
    apply filter_In in I. apply I. }
  rewrite (handleSubmit_blocked st k _ M K C).
  rewrite (handleSubmit_blocked _ k (Obj.keys found)); simpl; auto.
Qed.

Lemma blocked_submit_idempotent_witness :
  handleSubmit (handleSubmit init) = handleSubmit init.
Proof.
  apply (blocked_submit_idempotent init); [reflexivity | discriminate].
Defined.

(** X9. A blur that carries the value the form holds leaves a state that
    [handleSubmit] has just produced untouched, so the blur that the move
    of the focus raises after a blocked submit does not disturb the errors
    shown. *)
Theorem blur_after_submit (f v : jsstring) (st : state) :
  mounted st = true ->
  Obj.get (form st) f = Some v ->
  handleBlur f v (handleSubmit st) = handleSubmit st.
Proof.
  intros M G. destruct (handleSubmit_cells st M) as (E & F & M' & _).
  rewrite (handleBlur_mounted _ _ _ M'), E, (recompute_validateAll _ _ _ G), <- E.
  destruct (handleSubmit st); simpl in *. now subst.
Qed.

Lemma blur_after_submit_witness :
  handleBlur k_email [] (handleSubmit init) = handleSubmit init.
Proof.
  apply (blur_after_submit k_email [] init); reflexivity.
Defined.

(** X10. The send callback empties the form, so a submit that follows it
    with nothing typed in between is blocked: all three errors are set, the
    focus goes to the name field, and no send starts. *)
Theorem resubmit_after_send_blocked (st : state) :
  mounted st = true ->
  let done := run_callback SendDone st in
  errors (handleSubmit done) =
    [(k_name, name_error); (k_email, email_error); (k_message, message_error)] /\
  focused (handleSubmit done) = Some k_name /\
  timers (handleSubmit done) = timers done /\
  isSubmitting (handleSubmit done) = false /\
  form (handleSubmit done) = emptyForm.
Proof.
  intros M. destruct st as [fm er sub sent mt fo nw ts]; simpl in M; subst mt.
  repeat split.
Qed.

Lemma resubmit_after_send_blocked_witness :
  focused (handleSubmit (run_callback SendDone sending)) = Some k_name.
Proof.
  apply (resubmit_after_send_blocked sending). reflexivity.
Defined.

(** ** Invariants of the page *)

Lemma page_reachable_reachable st : page_reachable st -> reachable st.
Proof. induction 1; now constructor. Qed.

Lemma fire_next_shape deadline st st' :
  fire_next deadline st = Some st' ->
  exists t rest,
    pop_earliest (timers st) = Some (t, rest) /\ due t <= deadline /\
    st' = run_callback (run t)
            (mkState (form st) (errors st) (isSubmitting st) (mailSent st)
                     (mounted st) (focused st) (N.max (now st) (due t)) rest).
Proof.
  unfold fire_next.
  destruct (pop_earliest (timers st)) as [[t rest]|]; [|discriminate].
  destruct (N.leb_spec (due t) deadline); [|discriminate].
  intros E; injection E as <-. now exists t, rest.
Qed.

Lemma fire_all_preserves (P : state -> Prop) deadline :
  (forall st st', fire_next deadline st = Some st' -> P st -> P st') ->
  forall fuel st, P st -> P (fire_all fuel deadline st).
Proof.
  intros Step. induction fuel as [|fuel IH]; intros st H; simpl; [exact H|].
  destruct (fire_next deadline st) as [st'|] eqn:F; [|exact H].
  apply IH. exact (Step _ _ F H).
Qed.

Lemma pop_earliest_in ts : forall t rest,
  pop_earliest ts = Some (t, rest) -> forall u, In u rest -> In u ts.
Proof.
  induction ts as [|t0 ts IH]; intros t rest; simpl; [discriminate|].
  destruct (pop_earliest ts) as [[m r]|] eqn:P.
  - specialize (IH m r eq_refl).
    destruct (due m <? due t0); intros E; injection E as <- <-; intros u Hu.
    + destruct Hu as [<- | Hu]; [now left | right; now apply IH].
    + now right.
  - intros E; injection E as <- <-. intros u [].
Qed.

(** The cells a callback leaves. *)
Lemma run_callback_cells cb st :
  errors (run_callback cb st) = errors st /\
  form (run_callback cb st) =
    (if mounted st then match cb with SendDone => emptyForm | HideToast => form st end
     else form st) /\
  mailSent (run_callback cb st) =
    (if mounted st then match cb with SendDone => true | HideToast => false end
     else mailSent st) /\
  now (run_callback cb st) = now st.
Proof.
  destruct cb; destruct st as [fm er sub sent [|] fo nw ts]; repeat split.
Qed.

(** A field has one message: whatever invalid value it is asked about,
    [validateField] answers what it answers for the empty value. *)
Lemma validateField_msg f x :
  validateField f x <> [] -> validateField f x = validateField f [].
Proof.
  intros H. pose proof (validateField_known f x H) as Hf.
  destruct Hf as [<- | [<- | [<- | []]]].
  - rewrite validateField_name in *. destruct (negb (truthy x) || _); [reflexivity | congruence].
  - rewrite validateField_email in *. destruct (negb (truthy x) || _); [reflexivity | congruence].
  - rewrite validateField_message in *. destruct (negb (truthy x) || _); [reflexivity | congruence].
Qed.

Lemma errors_current_change name value st :
  mounted st = true -> errors_current st ->
  errors_current (handleChange name value st).
Proof.
  intros M I k e. rewrite (handleChange_mounted _ _ _ M). simpl.
  destruct (eqb k name) eqn:E.
  - apply eqb_eq in E; subst k. rewrite recompute_same, get_set_same. simpl.
    destruct (truthy (validateField name value)) eqn:T; [|discriminate].
    intros H; injection H as <-. apply truthy_true in T.
    split; [exact (validateField_known _ _ T) | now split].
  - apply eqb_neq in E. rewrite recompute_other, get_set_other by assumption.
    apply I.
Qed.

Lemma errors_current_blur name value st :
  mounted st = true -> Obj.get (form st) name = Some value ->
  errors_current st -> errors_current (handleBlur name value st).
Proof.
  intros M G I k e. rewrite (handleBlur_mounted _ _ _ M). simpl.
  destruct (eqb k name) eqn:E.
  - apply eqb_eq in E; subst k. rewrite recompute_same, G. simpl.
    destruct (truthy (validateField name value)) eqn:T; [|discriminate].
    intros H; injection H as <-. apply truthy_true in T.
    split; [exact (validateField_known _ _ T) | now split].
  - apply eqb_neq in E. rewrite recompute_other by assumption. apply I.
Qed.

Lemma errors_current_submit st :
  mounted st = true -> errors_current (handleSubmit st).
Proof.
  intros M k e. destruct (handleSubmit_cells st M) as (-> & -> & _).
  intros G. pose proof (get_in_keys _ _ _ G) as K.
  rewrite validateAll_keys in K. apply filter_In in K. destruct K as [Hf Inv].
  rewrite (validateAll_get _ _ Hf), Inv in G. injection G as <-.
  unfold invalid in Inv. apply truthy_true in Inv. now repeat split.
Qed.

Lemma errors_current_fire deadline st st' :
  fire_next deadline st = Some st' -> errors_current st -> errors_current st'.
Proof.
  intros F I. apply fire_next_shape in F as (t & rest & _ & _ & ->).
  intros k e. destruct (run_callback_cells (run t)
    (mkState (form st) (errors st) (isSubmitting st) (mailSent st)
             (mounted st) (focused st) (N.max (now st) (due t)) rest))
    as (-> & -> & _). simpl.
  intros G. destruct (I k e G) as (Hf & Ne & V).
  split; [exact Hf|]. split; [exact Ne|].
  destruct (mounted st); [|exact V]. destruct (run t); [|exact V].
  assert (Em : Obj.get emptyForm k = Some []).
  { destruct Hf as [<- | [<- | [<- | []]]]; reflexivity. }
  rewrite Em. simpl. rewrite <- V in Ne |- *. symmetry.
  now apply validateField_msg.
Qed.

Lemma errors_current_key key st : errors_current st -> errors_current (onKey key st).
Proof.
  intros I k e. unfold onKey. destruct (eqb key _); [|apply I].
  destruct (setMailSent_frame false st) as (_ & _ & _ & _ & -> & ->). apply I.
Qed.

Lemma page_errors_current st : page_reachable st -> errors_current st.
Proof.
  induction 1 as [|st ev R IH D].
  - intros k e G. discriminate G.
  - destruct ev as [name value|name value| |key|d|]; simpl in *.
    + destruct (mounted st) eqn:M; [|exact IH]. now apply errors_current_change.
    + destruct (mounted st) eqn:M; [|exact IH]. now apply errors_current_blur.
    + destruct (mounted st && negb (submitDisabled st)) eqn:G; [|exact IH].
      apply andb_true_iff in G as [M _]. now apply errors_current_submit.
    + destruct (mounted st); [|exact IH]. now apply errors_current_key.
    + unfold elapse.
      apply (fire_all_preserves errors_current (now st + d)
               (errors_current_fire (now st + d)) (weight (timers st))) in IH.
      exact IH.
    + exact IH.
Qed.

(** X11. In every state the page can reach, each entry of FieldErrors
    belongs to one of the three fields, is non-empty, and is the message
    [validateField] gives for the value the form now holds for that field:
    no error is ever kept for a field whose value is valid. *)
Theorem errors_track_values (st : state) :
  page_reachable st ->
  forall k e,
    Obj.get (errors st) k = Some e ->
    In k field_order /\ e <> [] /\
    validateField k (str (Obj.get (form st) k)) = e.
Proof.
  intros R. exact (page_errors_current st R).
Qed.

Lemma errors_track_values_witness :
  page_reachable (dispatch Submit init) /\
  validateField k_email (str (Obj.get (form (dispatch Submit init)) k_email))
    = email_error.
Proof.
  assert (R : page_reachable (dispatch Submit init)).
  { apply page_step; [apply page_init | exact I]. }
  split; [exact R|].
  apply (errors_track_values _ R k_email email_error). reflexivity.
Defined.

(** Without the controlled inputs the invariant would not hold: a blur
    that carried another value than the form's would leave an error on a
    valid field. *)
Example stray_blur_breaks_errors :
  let st := dispatch (Blur k_name []) (run_events fill init) in
  Obj.get (errors st) k_name = Some name_error /\
  validateField k_name (str (Obj.get (form st) k_name)) = [].
Proof. split; reflexivity. Qed.

(** X12. In every reachable state each of the three fields has a value in
    the form, so no read of [values.name], [values.email] or
    [values.message] in [validateAll] is ever undefined. *)
Theorem form_keeps_fields (st : state) :
  reachable st ->
  forall f, In f field_order -> exists v, Obj.get (form st) f = Some v.
Proof.
  intros R. change (fields_present st).
  induction R as [|st ev R IH].
  - intros f [<- | [<- | [<- | []]]]; now exists [].
  - destruct ev as [name value|name value| |key|d|]; simpl in *.
    + destruct (mounted st) eqn:M; [|exact IH].
      rewrite (handleChange_mounted _ _ _ M). intros f Hf. simpl.
      destruct (eqb f name) eqn:E.
      * apply eqb_eq in E; subst f. exists value. apply get_set_same.
      * apply eqb_neq in E. rewrite get_set_other by assumption. now apply IH.
    + destruct (mounted st) eqn:M; [|exact IH].
      rewrite (handleBlur_mounted _ _ _ M). exact IH.
    + destruct (mounted st && negb (submitDisabled st)) eqn:G; [|exact IH].
      apply andb_true_iff in G as [M _].
      destruct (handleSubmit_cells st M) as (_ & F & _).
      intros f Hf. rewrite F. now apply IH.
    + destruct (mounted st); [|exact IH]. unfold onKey.
      destruct (eqb key _); [|exact IH].
      destruct (setMailSent_frame false st) as (_ & _ & _ & _ & F & _).
      intros f Hf. rewrite F. now apply IH.
    + unfold elapse.
      apply (fire_all_preserves fields_present (now st + d)) with
        (fuel := weight (timers st)) in IH; [exact IH|].
      intros s s' F I. apply fire_next_shape in F as (t & rest & _ & _ & ->).
      intros f Hf.
      destruct (run_callback_cells (run t)
        (mkState (form s) (errors s) (isSubmitting s) (mailSent s)
                 (mounted s) (focused s) (N.max (now s) (due t)) rest))
        as (_ & -> & _). simpl.
      destruct (mounted s); [|now apply I]. destruct (run t); [|now apply I].
      destruct Hf as [<- | [<- | [<- | []]]]; now exists [].
    + exact IH.
Qed.

Lemma form_keeps_fields_witness :
  reachable toast_up /\ exists v, Obj.get (form toast_up) k_message = Some v.
Proof.
  assert (R : reachable toast_up).
  { unfold toast_up, sending. apply reachable_step, reachable_run, reachable_init. }
  split; [exact R|].
  apply (form_keeps_fields toast_up R k_message). simpl; auto.
Defined.

(** ** Every send ends and every toast comes down *)

Lemma run_callback_flags cb st :
  mounted (run_callback cb st) = mounted st /\
  isSubmitting (run_callback cb st) =
    (if mounted st then match cb with SendDone => false | HideToast => isSubmitting st end
     else isSubmitting st).
Proof.
  destruct cb; destruct st as [fm er sub sent [|] fo nw ts]; split; reflexivity.
Qed.

(** A callback popped from the queue leaves the sends of the rest. *)
Lemma fired_in_flight cb rest st0 :
  timers st0 = rest ->
  in_flight (run_callback cb st0) = List.length (filter is_send rest).
Proof.
  intros <-. unfold in_flight. rewrite run_callback_timers, filter_app, length_app.
  destruct cb; simpl; lia.
Qed.

Lemma fired_timers_in cb st0 u :
  In u (timers (run_callback cb st0)) -> is_send u = true -> In u (timers st0).
Proof.
  rewrite run_callback_timers. intros H S. apply in_app_or in H as [H | H]; [exact H|].
  destruct cb; [|destruct H]. destruct H as [<- | []]. discriminate S.
Qed.

Lemma fire_next_none deadline st :
  fire_next deadline st = None -> forall t, In t (timers st) -> deadline < due t.
Proof.
  unfold fire_next. destruct (pop_earliest (timers st)) as [[m rest]|] eqn:P.
  - destruct (N.leb_spec (due m) deadline); [discriminate|].
    intros _ t Ht. pose proof (pop_earliest_min _ _ _ P t Ht). lia.
  - apply pop_earliest_none in P. rewrite P. intros _ t [].
Qed.

Lemma in_flight_send st : (0 < in_flight st)%nat ->
  exists t, In t (timers st) /\ is_send t = true.
Proof.
  unfold in_flight. destruct (filter is_send (timers st)) as [|t l] eqn:F.
  - simpl; lia.
  - intros _. exists t. apply filter_In. rewrite F. now left.
Qed.

Lemma fire_next_now deadline st st' :
  fire_next deadline st = Some st' -> now st <= deadline ->
  now st <= now st' /\ now st' <= deadline /\ mounted st' = mounted st.
Proof.
  intros F L. apply fire_next_shape in F as (t & rest & _ & D & ->).
  destruct (run_callback_cells (run t)
    (mkState (form st) (errors st) (isSubmitting st) (mailSent st)
             (mounted st) (focused st) (N.max (now st) (due t)) rest))
    as (_ & _ & _ & ->).
  destruct (run_callback_flags (run t)
    (mkState (form st) (errors st) (isSubmitting st) (mailSent st)
             (mounted st) (focused st) (N.max (now st) (due t)) rest))
    as (-> & _).
  cbn [now mounted]. split; [lia | split; [lia | reflexivity]].
Qed.

Lemma timers_bounded_fire deadline st st' :
  fire_next deadline st = Some st' ->
  timers_bounded st /\ now st <= deadline ->
  timers_bounded st' /\ now st' <= deadline.
Proof.
  intros F [(B1 & B2 & B3) L].
  destruct (fire_next_now _ _ _ F L) as (L1 & L2 & M').
  split; [|exact L2].
  apply fire_next_shape in F as (t & rest & P & D & E).
  set (st0 := mkState (form st) (errors st) (isSubmitting st) (mailSent st)
                      (mounted st) (focused st) (N.max (now st) (due t)) rest) in *.
  destruct (run_callback_cells (run t) st0) as (_ & _ & Sent & Now).
  destruct (run_callback_flags (run t) st0) as (_ & Sub).
  assert (Fl : in_flight st' = List.length (filter is_send rest)).
  { rewrite E. now apply fired_in_flight. }
  pose proof (pop_earliest_sends _ _ _ P) as Cnt. fold (in_flight st) in Cnt.
  split; [|split].
  - intros u Hu Su. rewrite E in Hu. apply fired_timers_in in Hu; [|exact Su].
    simpl in Hu. apply (pop_earliest_in _ _ _ P) in Hu.
    specialize (B1 u Hu Su). lia.
  - intros Mt St. rewrite M' in Mt. rewrite E, Sub in St. simpl in St.
    rewrite Mt in St. unfold is_send in Cnt at 1.
    destruct (run t); [discriminate|].
    rewrite Fl. specialize (B2 Mt St). simpl in Cnt. lia.
  - intros Mt St. rewrite M' in Mt. rewrite E, Sent in St. simpl in St.
    rewrite Mt in St. destruct (run t) eqn:Rt; [|discriminate].
    exists (mkTimer (now st0 + 3000) HideToast).
    split; [|split].
    + rewrite E, run_callback_timers. apply in_or_app. right. now left.
    + reflexivity.
    + cbn [due]. rewrite E, Now. lia.
Qed.

Lemma reachable_timers_bounded st : reachable st -> timers_bounded st.
Proof.
  induction 1 as [|st ev R IH].
  - split; [intros t []|]. split; discriminate.
  - destruct ev as [name value|name value| |key|d|]; simpl.
    + destruct (mounted st) eqn:M; [|exact IH]. destruct IH as (B1 & B2 & B3).
      rewrite (handleChange_mounted _ _ _ M). unfold timers_bounded, in_flight.
      simpl. split; [exact B1 | split; [intros _; exact (B2 M) | intros _; exact (B3 M)]].
    + destruct (mounted st) eqn:M; [|exact IH]. destruct IH as (B1 & B2 & B3).
      rewrite (handleBlur_mounted _ _ _ M). unfold timers_bounded, in_flight.
      simpl. split; [exact B1 | split; [intros _; exact (B2 M) | intros _; exact (B3 M)]].
    + destruct (mounted st) eqn:M; [|exact IH].
      unfold submitDisabled. destruct (isSubmitting st) eqn:Sub; [exact IH|].
      simpl. destruct IH as (B1 & B2 & B3).
      destruct (reachable_one_send st R) as [L S].
      assert (Z : in_flight st = O).
      { destruct (in_flight st) as [|[|n]]; [reflexivity | | lia].
        specialize (S eq_refl). congruence. }
      destruct (validateAll (form st)) as [|[k e] found] eqn:V.
      * rewrite (handleSubmit_sends st M V). unfold timers_bounded, in_flight. simpl.
        split; [|split].
        -- intros t Ht St. apply in_app_or in Ht as [Ht | [<- | []]];
             [now apply B1 | simpl; lia].
        -- intros _ _. rewrite filter_app, length_app. fold (in_flight st).
           now rewrite Z.
        -- intros _ St. destruct (B3 M St) as (t & Ht & Hs & Hd).
           exists t. split; [apply in_or_app; now left | now split].
      * assert (K : Obj.keys (validateAll (form st)) = k :: Obj.keys found)
          by now rewrite V.
        assert (C : In k controls).
        { assert (I : In k (filter (invalid (form st)) field_order)).
          { rewrite <- validateAll_keys, K. now left. }
          apply filter_In in I. apply I. }
        rewrite (handleSubmit_blocked st k _ M K C).
        unfold timers_bounded, in_flight. simpl.
        split; [exact B1 | split; [intros _; exact (B2 M) | intros _; exact (B3 M)]].
    + destruct (mounted st) eqn:M; [|exact IH].
      unfold onKey. destruct (eqb key _); [|exact IH]. destruct IH as (B1 & B2 & B3).
      unfold setMailSent. rewrite M. unfold timers_bounded, in_flight. simpl.
      split; [exact B1|]. split; [intros _; exact (B2 M) | discriminate].
    + unfold elapse.
      assert (H0 : timers_bounded st /\ now st <= now st + d)
        by (split; [exact IH | lia]).
      apply (fire_all_preserves
               (fun s => timers_bounded s /\ now s <= now st + d) (now st + d)
               (timers_bounded_fire (now st + d)) (weight (timers st))) in H0.
      destruct H0 as [(C1 & C2 & C3) L].
      unfold timers_bounded, in_flight. simpl. split; [|split].
      * intros t Ht St. specialize (C1 t Ht St). lia.
      * exact C2.
      * intros Mt St. destruct (C3 Mt St) as (t & Ht & Hs & Hd).
        exists t. repeat split; try assumption. lia.
    + destruct IH as (B1 & B2 & B3).
      unfold timers_bounded, in_flight. simpl. split; [exact B1|].
      split; discriminate.
Qed.

(** While timers fire, a mounted component either still has its one send
    pending, due by the deadline, or has finished it and holds the empty
    form. *)
Lemma sending_fire deadline st st' :
  fire_next deadline st = Some st' ->
  mounted st = true /\
  ((isSubmitting st = true /\ in_flight st = 1%nat /\
    forall t, In t (timers st) -> is_send t = true -> due t <= deadline) \/
   (isSubmitting st = false /\ form st = emptyForm /\ in_flight st = O)) ->
  mounted st' = true /\
  ((isSubmitting st' = true /\ in_flight st' = 1%nat /\
    forall t, In t (timers st') -> is_send t = true -> due t <= deadline) \/
   (isSubmitting st' = false /\ form st' = emptyForm /\ in_flight st' = O)).
Proof.
  intros F [M J].
  apply fire_next_shape in F as (t & rest & P & D & E).
  set (st0 := mkState (form st) (errors st) (isSubmitting st) (mailSent st)
                      (mounted st) (focused st) (N.max (now st) (due t)) rest) in *.
  destruct (run_callback_cells (run t) st0) as (_ & Fm & _ & _).
  destruct (run_callback_flags (run t) st0) as (Mt & Sub).
  assert (Fl : in_flight st' = List.length (filter is_send rest)).
  { rewrite E. now apply fired_in_flight. }
  pose proof (pop_earliest_sends _ _ _ P) as Cnt. fold (in_flight st) in Cnt.
  assert (Hs : is_send t = match run t with SendDone => true | HideToast => false end)
    by reflexivity.
  rewrite Hs in Cnt. rewrite <- E in Fm, Mt, Sub. simpl in Fm, Mt, Sub.
  rewrite M in Fm, Mt, Sub. split; [exact Mt|].
  destruct (run t) eqn:Rt.
  - right. split; [exact Sub|]. split; [exact Fm|].
    rewrite Fl. destruct J as [(_ & I1 & _) | (_ & _ & I0)]; lia.
  - destruct J as [(S1 & I1 & Due) | (S0 & F0 & I0)].
    + left. split; [congruence|]. split; [lia|].
      intros u Hu Su. rewrite E in Hu. apply fired_timers_in in Hu; [|exact Su].
      simpl in Hu. apply (pop_earliest_in _ _ _ P) in Hu. now apply Due.
    + right. split; [congruence|]. split; [congruence | lia].
Qed.

(** A timer that fires with no send in flight takes the toast down. *)
Lemma toast_fire deadline st st' :
  fire_next deadline st = Some st' ->
  mounted st = true /\ isSubmitting st = false /\ in_flight st = O ->
  (mounted st' = true /\ isSubmitting st' = false /\ in_flight st' = O) /\
  mailSent st' = false.
Proof.
  intros F (M & S0 & I0).
  apply fire_next_shape in F as (t & rest & P & D & E).
  set (st0 := mkState (form st) (errors st) (isSubmitting st) (mailSent st)
                      (mounted st) (focused st) (N.max (now st) (due t)) rest) in *.
  destruct (run_callback_cells (run t) st0) as (_ & _ & Sent & _).
  destruct (run_callback_flags (run t) st0) as (Mt & Sub).
  assert (Fl : in_flight st' = List.length (filter is_send rest)).
  { rewrite E. now apply fired_in_flight. }
  pose proof (pop_earliest_sends _ _ _ P) as Cnt. fold (in_flight st) in Cnt.
  assert (Hs : is_send t = match run t with SendDone => true | HideToast => false end)
    by reflexivity.
  rewrite Hs in Cnt. rewrite <- E in Sent, Mt, Sub. simpl in Sent, Mt, Sub.
  rewrite M in Sent, Mt, Sub.
  destruct (run t) eqn:Rt; [simpl in Cnt; lia|].
  split; [|exact Sent].
  split; [exact Mt|]. split; [congruence | simpl in Cnt; lia].
Qed.

Lemma fire_all_toast deadline : forall fuel st,
  mounted st = true /\ isSubmitting st = false /\ in_flight st = O ->
  fire_all fuel deadline st = st \/ mailSent (fire_all fuel deadline st) = false.
Proof.
  induction fuel as [|fuel IH]; intros st K; simpl; [now left|].
  destruct (fire_next deadline st) as [st'|] eqn:F; [|now left].
  destruct (toast_fire _ _ _ F K) as [K' Down]. right.
  destruct (IH st' K') as [-> | H]; assumption.
Qed.

Lemma elapse_sending_ends st d :
  reachable st -> mounted st = true -> isSubmitting st = true -> 700 <= d ->
  mounted (elapse d st) = true /\ isSubmitting (elapse d st) = false /\
  form (elapse d st) = emptyForm /\ in_flight (elapse d st) = O.
Proof.
  intros R M S D.
  destruct (reachable_timers_bounded st R) as (B1 & B2 & _).
  pose proof (fire_all_done (now st + d) (weight (timers st)) st (le_n _)) as Q.
  pose proof (fire_all_preserves _ (now st + d) (sending_fire (now st + d))
                (weight (timers st)) st) as J.
  unfold elapse. unfold in_flight in *. simpl.
  set (fin := fire_all (weight (timers st)) (now st + d) st) in *.
  destruct J as (Mf & [(Sf & If & Due) | (Sf & Ff & If)]).
  - split; [exact M|]. left. split; [exact S|]. split; [exact (B2 M S)|].
    intros t Ht St. specialize (B1 t Ht St). lia.
  - exfalso. destruct (in_flight_send fin) as (t & Ht & St).
    { unfold in_flight. lia. }
    pose proof (fire_next_none _ _ Q t Ht). specialize (Due t Ht St). lia.
  - auto.
Qed.

Lemma elapse_idle_stays st d :
  reachable st -> mounted st = true -> isSubmitting st = false ->
  mounted (elapse d st) = true /\ isSubmitting (elapse d st) = false /\
  (3000 <= d -> mailSent (elapse d st) = false).
Proof.
  intros R M S.
  destruct (reachable_timers_bounded st R) as (_ & _ & B3).
  destruct (reachable_one_send st R) as [L1 L2].
  assert (Z : in_flight st = O).
  { destruct (in_flight st) as [|[|n]]; [reflexivity | | lia].
    specialize (L2 eq_refl). congruence. }
  assert (K : mounted st = true /\ isSubmitting st = false /\ in_flight st = O)
    by auto.
  pose proof (fire_all_preserves
    (fun s => mounted s = true /\ isSubmitting s = false /\ in_flight s = O)
    (now st + d)
    (fun s s' F Ks => proj1 (toast_fire (now st + d) s s' F Ks))
    (weight (timers st)) st K) as (Mf & Sf & _).
  unfold elapse. simpl. split; [exact Mf|]. split; [exact Sf|].
  intros D.
  pose proof (fire_all_done (now st + d) (weight (timers st)) st (le_n _)) as Q.
  destruct (fire_all_toast (now st + d) (weight (timers st)) st K) as [E | Down];
    [|exact Down].
  rewrite E in *. destruct (mailSent st) eqn:Sent; [|reflexivity].
  destruct (B3 M eq_refl) as (t & Ht & _ & Hd).
  pose proof (fire_next_none _ _ Q t Ht). lia.
Qed.

Lemma sending_reachable : reachable sending.
Proof. unfold sending. apply reachable_run, reachable_init. Qed.

Lemma toast_up_reachable : reachable toast_up.
Proof. unfold toast_up. apply reachable_step, sending_reachable. Qed.

(** X13. Every send ends: from any reachable state of the mounted
    component that is submitting, once 700ms or more have passed with no
    further input the component is no longer submitting, no send is in
    flight, and the form is empty, whatever else was pending. *)
Theorem send_always_completes (st : state) (d : N) :
  reachable st ->
  mounted st = true ->
  isSubmitting st = true ->
  700 <= d ->
  isSubmitting (elapse d st) = false /\
  in_flight (elapse d st) = O /\
  form (elapse d st) = emptyForm.
Proof.
  intros R M S D.
  destruct (elapse_sending_ends st d R M S D) as (_ & H1 & H2 & H3). auto.
Qed.

Lemma send_always_completes_witness :
  isSubmitting (elapse 700 sending) = false /\ form (elapse 700 sending) = emptyForm.
Proof.
  destruct (send_always_completes sending 700 sending_reachable) as (H1 & _ & H3).
  - reflexivity.
  - reflexivity.
  - lia.
  - now split.
Defined.

(** X14. Every toast comes down: from any reachable state of the mounted
    component with no send under way, once 3000ms or more have passed with
    no further input the toast is not shown, whether or not it was
    dismissed in between and whatever stale timers are pending. *)
Theorem toast_always_hides (st : state) (d : N) :
  reachable st ->
  mounted st = true ->
  isSubmitting st = false ->
  3000 <= d ->
  mailSent (elapse d st) = false /\ renderToast (elapse d st) = None.
Proof.
  intros R M S D.
  destruct (elapse_idle_stays st d R M S) as (_ & _ & H).
  unfold renderToast. rewrite (H D). now split.
Qed.

Lemma toast_always_hides_witness :
  renderToast toast_up <> None /\ renderToast (elapse 3000 toast_up) = None.
Proof.
  split; [discriminate|].
  apply (toast_always_hides toast_up 3000 toast_up_reachable);
    [reflexivity | reflexivity | lia].
Defined.

(** X15. The controller always comes back to Idle: from any reachable
    state of the mounted component, 700ms or more followed by 3000ms or
    more without input leave it Idle. *)
Theorem always_returns_idle (st : state) (d1 d2 : N) :
  reachable st ->
  mounted st = true ->
  700 <= d1 -> 3000 <= d2 ->
  submissionState (elapse d2 (elapse d1 st)) = Idle.
Proof.
  intros R M D1 D2.
  assert (R1 : reachable (elapse d1 st)) by apply (reachable_step st (Elapse d1) R).
  assert (H1 : mounted (elapse d1 st) = true /\ isSubmitting (elapse d1 st) = false).
  { destruct (isSubmitting st) eqn:S.
    - destruct (elapse_sending_ends st d1 R M S D1) as (A & B & _). now split.
    - destruct (elapse_idle_stays st d1 R M S) as (A & B & _). now split. }
  destruct H1 as [M1 S1].
  destruct (elapse_idle_stays (elapse d1 st) d2 R1 M1 S1) as (_ & S2 & Down).
  unfold submissionState. now rewrite S2, (Down D2).
Qed.

Lemma always_returns_idle_witness :
  submissionState toast_refilled = Succeeded /\
  submissionState (elapse 3000 (elapse 700 (dispatch Submit toast_refilled))) = Idle.
Proof.
  split; [reflexivity|].
  apply (always_returns_idle (dispatch Submit toast_refilled) 700 3000).
  - apply reachable_step, toast_refilled_reachable.
  - reflexivity.
  - lia.
  - lia.
Defined.

(** ** What the render shows *)

(** X16. In every reachable state of the mounted component the submit
    button is disabled, and reads "Sending...", exactly when a send is in
    flight; otherwise it is enabled and reads "Send Message". *)
Theorem button_tracks_send (st : state) :
  reachable st ->
  mounted st = true ->
  (b_disabled (renderButton st) = true <-> in_flight st = 1%nat) /\
  (b_label (renderButton st) = lit "Sending..." <-> in_flight st = 1%nat) /\
  (b_label (renderButton st) = lit "Send Message" <-> in_flight st = O).
Proof.
  intros R M.
  destruct (reachable_timers_bounded st R) as (_ & B2 & _).
  destruct (reachable_one_send st R) as [L S].
  unfold renderButton. simpl. destruct (isSubmitting st) eqn:Sub.
  - rewrite (B2 M eq_refl). repeat split; auto; discriminate.
  - assert (Z : in_flight st = O).
    { destruct (in_flight st) as [|[|n]]; [reflexivity | | lia].
      specialize (S eq_refl). congruence. }
    rewrite Z. repeat split; auto; discriminate.
Qed.

Lemma button_tracks_send_witness :
  b_disabled (renderButton sending) = true /\ in_flight sending = 1%nat.
Proof.
  destruct (button_tracks_send sending sending_reachable eq_refl) as ((H & _) & _).
  split; [reflexivity|]. apply H. reflexivity.
Defined.

(** X17. In every state the page can reach, a control whose error
    paragraph is rendered is marked [aria-invalid="true"], its
    [aria-describedby] names the id of that paragraph, it carries the red
    border, and the text shown is the validator's message for the value
    the control shows; a control without the paragraph is marked
    ["false"] and describes nothing. *)
Theorem rendered_errors_current (st : state) (c : control_view) :
  page_reachable st ->
  In c (renderControls st) ->
  match c_helper c with
  | Some (id, text) =>
      c_ariaInvalid c = lit "true" /\
      c_ariaDescribedby c = Some id /\
      c_className c =
        lit "p-3 rounded-md w-full focus:outline-none border-red-500 ring-1 ring-red-200" /\
      text <> [] /\
      text = validateField (c_name c) (str (c_value c))
  | None =>
      c_ariaInvalid c = lit "false" /\ c_ariaDescribedby c = None /\
      c_className c =
        lit "p-3 rounded-md w-full focus:outline-none border border-slate-300 focus:border-indigo-600"
  end.
Proof.
  intros R Hc.
  assert (G : forall name errId,
            c = renderControl name errId st ->
            match c_helper c with
            | Some (id, text) =>
                c_ariaInvalid c = lit "true" /\
                c_ariaDescribedby c = Some id /\
                c_className c =
                  lit "p-3 rounded-md w-full focus:outline-none border-red-500 ring-1 ring-red-200" /\
                text <> [] /\
                text = validateField (c_name c) (str (c_value c))
            | None =>
                c_ariaInvalid c = lit "false" /\ c_ariaDescribedby c = None /\
                c_className c =
                  lit "p-3 rounded-md w-full focus:outline-none border border-slate-300 focus:border-indigo-600"
            end).
  { intros name errId ->. unfold renderControl. cbn [c_helper c_ariaInvalid
      c_ariaDescribedby c_className c_name c_value].
    destruct (Obj.get (errors st) name) as [e|] eqn:Ge.
    - destruct (page_errors_current st R name e Ge) as (_ & Ne & V).
      destruct e as [|x e]; [congruence|].
      cbn [truthy_prop falsy truthy negb str].
      repeat split; [discriminate | now rewrite V].
    - cbn [truthy_prop falsy negb]. repeat split. }
  destruct Hc as [<- | [<- | [<- | []]]]; eapply G; reflexivity.
Qed.

Lemma rendered_errors_current_witness :
  c_helper (renderControl k_name (lit "err-name") (dispatch Submit init)) =
    Some (lit "err-name", name_error) /\
  c_ariaDescribedby (renderControl k_name (lit "err-name") (dispatch Submit init)) =
    Some (lit "err-name").
Proof.
  assert (R : page_reachable (dispatch Submit init)).
  { apply page_step; [apply page_init | exact I]. }
  pose proof (rendered_errors_current (dispatch Submit init)
                (renderControl k_name (lit "err-name") (dispatch Submit init)) R
                (or_introl eq_refl)) as H.
  split; [reflexivity|]. apply H.
Defined.

(** ** The submission, from start to finish *)















